(** * ratcave: the transform node ([physical.py])

    A shallow embedding of [ratcave/physical.py]: the classes [Physical]
    and [PhysicalNode], their property setters and their [update] methods.

    Python floats are never inspected by [physical.py] itself: every number
    is handed to numpy, to the [_transformations] extension or to the
    [rotutils] classes.  The first part of the development therefore takes
    those operations as an interface ([Numeric]) and proves what
    [physical.py] does for every implementation of it.  The second part
    gives one implementation, 4x4 matrices in exact rational arithmetic,
    for the statements that depend on what an inverse is and to run the
    model on concrete nodes. *)

From stdpp Require Import gmap list.
From Stdlib Require Import QArith Qcanon Field.

Close Scope Q_scope.
Close Scope Qc_scope.

Set Default Proof Using "Type".

(** ** Exceptions and commands *)

(** The exceptions that can leave the modelled code.  [LinAlgError] is what
    [trans.inverse_matrix] raises on a singular matrix (the specification's
    [SingularMatrixError]); [ValueError] is raised by the [rot] setter;
    [TypeError] is the arity error of a constructor called on an unpacked
    sequence (and of unpacking what is not a sequence).
    [ReferenceError] stands for reading through a reference that is not in
    the store, which no Python program can do. *)
Inductive exn : Set :=
  | TypeError
  | ValueError
  | LinAlgError
  | ReferenceError.

Inductive outcome (A : Type) : Type :=
  | Ok (a : A)
  | Raise (e : exn).
Arguments Ok {A} a.
Arguments Raise {A} e.

(** A method is a command on the state it can mutate: it returns normally
    or raises, and in both cases leaves a state behind. *)
Definition cmd (S A : Type) : Type := S → outcome A * S.

#[global] Instance cmd_ret {S} : MRet (cmd S) := λ A a s, (Ok a, s).

#[global] Instance cmd_bind {S} : MBind (cmd S) := λ A B f c s,
  match c s with
  | (Ok a, s') => f a s'
  | (Raise e, s') => (Raise e, s')
  end.

Definition get {S} : cmd S S := λ s, (Ok s, s).
Definition put {S} (s : S) : cmd S () := λ _, (Ok (), s).
Definition raise {S A} (e : exn) : cmd S A := λ s, (Raise e, s).

(** A constructor call that may raise, run inside a command. *)
Definition call {S A} (r : outcome A) : cmd S A := λ s, (r, s).

(** ** [rotutils]: the stored primitives *)

Module rotutils.
Section prims.
Context {F : Type}.

(** Modelled from the spec: [rotutils.Translation], which is not among
    the sources.  "Position — 3 floating-point components (x, y, z)". *)
Record Translation : Type := mkTranslation { x : F; y : F; z : F }.

(** Modelled from the spec: [rotutils.RotationBase] and its two
    subclasses.  "Rotation — a polymorphic value over two variants:
    Euler-degrees: three angles in degrees; Quaternion: four components
    (x, y, z, w)". *)
Inductive RotationBase : Type :=
  | RotationEulerDegrees (x y z : F)
  | RotationQuaternion (x y z w : F).

(** Modelled from the spec: [rotutils.Scale].  "Scale — either one
    scalar (uniform) or 3 components (non-uniform)". *)
Inductive Scale : Type :=
  | ScaleUniform (s : F)
  | ScaleXYZ (x y z : F).

(** Modelled from the spec: the constructor of [rotutils.Translation],
    which is not among the sources, called as [Translation( *coords)].  A
    position has three components; any other number of arguments is an
    arity error. *)
Definition new_Translation (coords : list F) : outcome Translation :=
  match coords with
  | [x; y; z] => Ok (mkTranslation x y z)
  | _ => Raise TypeError
  end.

(** Modelled from the spec: the constructor of
    [rotutils.RotationEulerDegrees], which is not among the sources,
    called as [RotationEulerDegrees( *coords)].  "Euler-degrees: three
    angles in degrees, one per axis". *)
Definition new_RotationEulerDegrees (coords : list F) : outcome RotationBase :=
  match coords with
  | [x; y; z] => Ok (RotationEulerDegrees x y z)
  | _ => Raise TypeError
  end.

(** Modelled from the spec: the constructor of
    [rotutils.RotationQuaternion], which is not among the sources, called
    as [RotationQuaternion( *coords)].  "Quaternion: four components". *)
Definition new_RotationQuaternion (coords : list F) : outcome RotationBase :=
  match coords with
  | [x; y; z; w] => Ok (RotationQuaternion x y z w)
  | _ => Raise TypeError
  end.

(** Modelled from the spec: the constructor of [rotutils.Scale], which is
    not among the sources, called as [Scale( *coords)]: "either one scalar
    (uniform) or 3 components (non-uniform)". *)
Definition new_Scale (coords : list F) : outcome Scale :=
  match coords with
  | [s] => Ok (ScaleUniform s)
  | [x; y; z] => Ok (ScaleXYZ x y z)
  | _ => Raise TypeError
  end.

(** The three factors a scale applies, one per axis. *)
Definition factors (s : Scale) : F * F * F :=
  match s with
  | ScaleUniform s => (s, s, s)
  | ScaleXYZ x y z => (x, y, z)
  end.
End prims.
Arguments Translation F : clear implicits.
Arguments RotationBase F : clear implicits.
Arguments Scale F : clear implicits.
End rotutils.
Export rotutils.

(** ** The numeric libraries *)

(** What [physical.py] uses of numpy ([np.zeros((4, 4))], [np.dot], [.T]),
    of [_transformations] ([trans.inverse_matrix], [None] when it raises)
    and of the [to_matrix] methods of the [rotutils] classes.  [M] is the
    type of the values of a 4x4 array, [F] the type of a number. *)
Class Numeric (F M : Type) : Type := {
  np_zeros : M;
  np_dot : M → M → M;
  np_T : M → M;
  inverse_matrix : M → option M;
  Translation_to_matrix : Translation F → M;
  Rotation_to_matrix : RotationBase F → M;
  Scale_to_matrix : Scale F → M
}.

(** A value assigned to one of the properties [pos], [rot], [scale]: an
    instance of the class the setter tests for with [isinstance], a
    sequence (it has [__iter__] and a length), or a bare number. *)
Inductive pyarg (F T : Type) : Type :=
  | Instance_of (o : T)
  | Sequence (coords : list F)
  | Number (v : F).
Arguments Instance_of {F T} o.
Arguments Sequence {F T} coords.
Arguments Number {F T} v.

(** ** [class Physical] *)

Module Physical.
Section class.
Context {F M : Type} {lib : Numeric F M}.

Record Physical : Type := mkPhysical {
  _pos : Translation F;
  _rot : RotationBase F;
  _scale : Scale F;
  model_matrix : M;
  normal_matrix : M;
  view_matrix : M
}.

(** [self.model_matrix[:] = m] and its two siblings: the values of the
    array are overwritten, nothing else of the object changes. *)
Definition store_model_matrix (m : M) : cmd Physical () := λ self,
  (Ok (), mkPhysical (_pos self) (_rot self) (_scale self)
                     m (normal_matrix self) (view_matrix self)).
Definition store_normal_matrix (m : M) : cmd Physical () := λ self,
  (Ok (), mkPhysical (_pos self) (_rot self) (_scale self)
                     (model_matrix self) m (view_matrix self)).
Definition store_view_matrix (m : M) : cmd Physical () := λ self,
  (Ok (), mkPhysical (_pos self) (_rot self) (_scale self)
                     (model_matrix self) (normal_matrix self) m).

(** [self._pos = v] and its two siblings. *)
Definition store_pos (v : Translation F) : cmd Physical () := λ self,
  (Ok (), mkPhysical v (_rot self) (_scale self)
                     (model_matrix self) (normal_matrix self) (view_matrix self)).
Definition store_rot (v : RotationBase F) : cmd Physical () := λ self,
  (Ok (), mkPhysical (_pos self) v (_scale self)
                     (model_matrix self) (normal_matrix self) (view_matrix self)).
Definition store_scale (v : Scale F) : cmd Physical () := λ self,
  (Ok (), mkPhysical (_pos self) (_rot self) v
                     (model_matrix self) (normal_matrix self) (view_matrix self)).

(** [trans.inverse_matrix(m)], raising on a singular matrix. *)
Definition trans_inverse_matrix {S} (m : M) : cmd S M :=
  match inverse_matrix m with
  | Some i => mret i
  | None => raise LinAlgError
  end.

(** The property getters. *)
Definition pos (self : Physical) : Translation F := _pos self.
Definition rot (self : Physical) : RotationBase F := _rot self.
Definition scale (self : Physical) : Scale F := _scale self.

(** [@pos.setter] *)
Definition set_pos (coords : pyarg F (Translation F)) : cmd Physical () :=
  match coords with
  | Instance_of t => store_pos t
  | Sequence l => t ← call (new_Translation l); store_pos t
  | Number _ => raise TypeError
  end.

(** [@rot.setter].  The [else: raise ValueError] belongs to the outer
    chain; a sequence whose length is neither 3 nor 4 falls through the
    inner chain, which has no [else]. *)
Definition set_rot (coords : pyarg F (RotationBase F)) : cmd Physical () :=
  match coords with
  | Instance_of r => store_rot r
  | Sequence l =>
      if decide (length l = 3) then
        r ← call (new_RotationEulerDegrees l); store_rot r
      else if decide (length l = 4) then
        r ← call (new_RotationQuaternion l); store_rot r
      else mret ()
  | Number _ => raise ValueError
  end.

(** [@scale.setter] *)
Definition set_scale (coords : pyarg F (Scale F)) : cmd Physical () :=
  match coords with
  | Instance_of s => store_scale s
  | Sequence l => s ← call (new_Scale l); store_scale s
  | Number v => store_scale (ScaleUniform v)
  end.

(** Modelled from the spec: [AutoRegisterObserver.update], reached by
    [super(Physical, self).update()], is not among the sources; the
    specification gives it no effect on the primitives or the matrices
    of the node. *)
Definition super_update : cmd Physical () := mret ().

(** [Physical.update] *)
Definition update : cmd Physical () :=
  super_update ;;
  self ← get;
  store_model_matrix
    (np_dot (Translation_to_matrix (pos self)) (Rotation_to_matrix (rot self))) ;;
  self ← get;
  inv ← trans_inverse_matrix (model_matrix self);
  store_view_matrix inv ;;
  self ← get;
  store_model_matrix (np_dot (model_matrix self) (Scale_to_matrix (scale self))) ;;
  self ← get;
  inv ← trans_inverse_matrix (np_T (model_matrix self));
  store_normal_matrix inv.

(** The assignments of [Physical.__init__] before its call of
    [self.update()]: the three primitives, then three zero arrays.
    [scale] is the float of the docstring. *)
Definition init_fields (position rotation : list F) (scale : F)
  : outcome Physical :=
  match new_RotationEulerDegrees rotation with
  | Raise e => Raise e
  | Ok r =>
      match new_Translation position with
      | Raise e => Raise e
      | Ok p => Ok (mkPhysical p r (ScaleUniform scale) np_zeros np_zeros np_zeros)
      end
  end.

(** [Physical.__init__] on an instance of [Physical] itself: an
    exception leaves no object. *)
Definition __init__ (position rotation : list F) (scale : F)
  : outcome Physical :=
  match init_fields position rotation scale with
  | Raise e => Raise e
  | Ok self =>
      match update self with
      | (Ok _, self') => Ok self'
      | (Raise e, _) => Raise e
      end
  end.
End class.
Arguments Physical F M : clear implicits.
End Physical.

(** ** [class PhysicalNode] *)

Module PhysicalNode.
Import Physical.

(** Objects are shared: a node reads the matrices of its parent through a
    reference.  The store maps references to the objects they name. *)
Abbreviation ref := nat.

Section class.
Context {F M : Type} {lib : Numeric F M}.

(** The attributes of a [PhysicalNode]: those it inherits from
    [Physical], the parent link it inherits from [SceneNode], and its
    three world-space arrays. *)
Record PhysicalNode : Type := mkPhysicalNode {
  physical : Physical F M;
  parent : option ref;
  model_matrix_global : M;
  normal_matrix_global : M;
  view_matrix_global : M
}.

Local Abbreviation store := (gmap ref PhysicalNode).

(** Reading the object behind a reference. *)
Definition load (r : ref) : cmd store PhysicalNode := λ h,
  match h !! r with
  | Some n => (Ok n, h)
  | None => (Raise ReferenceError, h)
  end.

Definition put_node (r : ref) (n : PhysicalNode) : cmd store () := λ h,
  (Ok (), <[r := n]> h).

(** [self.model_matrix_global[:] = m] and its two siblings. *)
Definition store_model_matrix_global (self : ref) (m : M) : cmd store () :=
  n ← load self;
  put_node self (mkPhysicalNode (physical n) (parent n)
                   m (normal_matrix_global n) (view_matrix_global n)).
Definition store_normal_matrix_global (self : ref) (m : M) : cmd store () :=
  n ← load self;
  put_node self (mkPhysicalNode (physical n) (parent n)
                   (model_matrix_global n) m (view_matrix_global n)).
Definition store_view_matrix_global (self : ref) (m : M) : cmd store () :=
  n ← load self;
  put_node self (mkPhysicalNode (physical n) (parent n)
                   (model_matrix_global n) (normal_matrix_global n) m).

(** A method of [Physical] run on the object behind [self]: whatever it
    does to the inherited attributes stays done, also when it raises. *)
Definition inherited {A} (self : ref) (method : cmd (Physical F M) A)
  : cmd store A := λ h,
  match h !! self with
  | None => (Raise ReferenceError, h)
  | Some n =>
      let '(r, p) := method (physical n) in
      (r, <[self := mkPhysicalNode p (parent n) (model_matrix_global n)
                      (normal_matrix_global n) (view_matrix_global n)]> h)
  end.

(** [PhysicalNode.update].  [if self.parent:] tests the parent link
    against [None]; every matrix of the parent is read from the store at
    the statement that uses it. *)
Definition update (self : ref) : cmd store () :=
  inherited self Physical.update ;;
  s ← load self;
  match parent s with
  | Some p =>
      (par ← load p; s ← load self;
       store_model_matrix_global self
         (np_dot (model_matrix_global par) (model_matrix (physical s)))) ;;
      (par ← load p; s ← load self;
       store_normal_matrix_global self
         (np_dot (normal_matrix_global par) (normal_matrix (physical s)))) ;;
      (par ← load p; s ← load self;
       store_view_matrix_global self
         (np_dot (normal_matrix_global par) (normal_matrix (physical s))))
  | None =>
      (s ← load self;
       store_model_matrix_global self (model_matrix (physical s))) ;;
      (s ← load self;
       store_normal_matrix_global self (normal_matrix (physical s))) ;;
      (s ← load self;
       store_view_matrix_global self (view_matrix (physical s)))
  end.

(** [PhysicalNode.__init__]: three zero arrays, then [Physical.__init__],
    whose closing [self.update()] is [PhysicalNode.update] on this
    object.  The new object gets the first unused reference; when the
    constructor raises, no object is left behind.

    Modelled from the spec: [SceneNode.__init__] is not among the
    sources; the keyword argument [parent] registers the new node as a
    child of an existing one ("each Transform Node holds at most one
    parent"), and the default is no parent. *)
Definition __init__ (parent : option ref) (position rotation : list F)
  (scale : F) : cmd store ref := λ h,
  match init_fields position rotation scale with
  | Raise e => (Raise e, h)
  | Ok p =>
      let self := fresh (dom h) in
      let obj := mkPhysicalNode p parent np_zeros np_zeros np_zeros in
      match update self (<[self := obj]> h) with
      | (Ok _, h') => (Ok self, h')
      | (Raise e, _) => (Raise e, h)
      end
  end.

(** The six matrices of a node, local then global. *)
Definition matrices (n : PhysicalNode) : M * M * M * (M * M * M) :=
  (model_matrix (physical n), normal_matrix (physical n),
   view_matrix (physical n),
   (model_matrix_global n, normal_matrix_global n, view_matrix_global n)).
End class.
Arguments PhysicalNode F M : clear implicits.
End PhysicalNode.

(** ** Exact arithmetic: 4x4 matrices of rationals *)

(** The arrays of [physical.py] all have shape (4, 4).  Their values in
    exact arithmetic: four rows of four rationals.  The operations below
    are what numpy and [_transformations] compute when no rounding takes
    place. *)
Module Rational.
Local Open Scope Qc_scope.

Record vec4 : Set := V4 { c0 : Qc; c1 : Qc; c2 : Qc; c3 : Qc }.
Record mat4 : Set := M4 { r0 : vec4; r1 : vec4; r2 : vec4; r3 : vec4 }.

Inductive ix : Set := i0 | i1 | i2 | i3.

Definition component (v : vec4) (j : ix) : Qc :=
  match j with i0 => c0 v | i1 => c1 v | i2 => c2 v | i3 => c3 v end.

Definition row (m : mat4) (i : ix) : vec4 :=
  match i with i0 => r0 m | i1 => r1 m | i2 => r2 m | i3 => r3 m end.

Definition entry (m : mat4) (i j : ix) : Qc := component (row m i) j.

Definition build (f : ix → ix → Qc) : mat4 :=
  M4 (V4 (f i0 i0) (f i0 i1) (f i0 i2) (f i0 i3))
     (V4 (f i1 i0) (f i1 i1) (f i1 i2) (f i1 i3))
     (V4 (f i2 i0) (f i2 i1) (f i2 i2) (f i2 i3))
     (V4 (f i3 i0) (f i3 i1) (f i3 i2) (f i3 i3)).

(** [np.zeros((4, 4))] *)
Definition zeros : mat4 := build (λ _ _, 0).

Definition identity : mat4 :=
  M4 (V4 1 0 0 0) (V4 0 1 0 0) (V4 0 0 1 0) (V4 0 0 0 1).

(** [a.T] *)
Definition transpose (a : mat4) : mat4 := build (λ i j, entry a j i).

(** [np.dot(a, b)] on two (4, 4) arrays: the matrix product. *)
Definition dot (a b : mat4) : mat4 :=
  build (λ i j, entry a i i0 * entry b i0 j + entry a i i1 * entry b i1 j
              + entry a i i2 * entry b i2 j + entry a i i3 * entry b i3 j).

(** The three indices other than [i], in increasing order. *)
Definition others (i : ix) : ix * ix * ix :=
  match i with
  | i0 => (i1, i2, i3)
  | i1 => (i0, i2, i3)
  | i2 => (i0, i1, i3)
  | i3 => (i0, i1, i2)
  end.

(** The determinant of what is left of [m] without row [i] and column [j]. *)
Definition minor (m : mat4) (i j : ix) : Qc :=
  let '(p, q, r) := others i in
  let '(a, b, c) := others j in
    entry m p a * (entry m q b * entry m r c - entry m q c * entry m r b)
  - entry m p b * (entry m q a * entry m r c - entry m q c * entry m r a)
  + entry m p c * (entry m q a * entry m r b - entry m q b * entry m r a).

Definition odd (i : ix) : bool :=
  match i with i0 | i2 => false | i1 | i3 => true end.

Definition cofactor (m : mat4) (i j : ix) : Qc :=
  if xorb (odd i) (odd j) then - minor m i j else minor m i j.

(** Expansion along the first row. *)
Definition det (m : mat4) : Qc :=
  entry m i0 i0 * cofactor m i0 i0 + entry m i0 i1 * cofactor m i0 i1
  + entry m i0 i2 * cofactor m i0 i2 + entry m i0 i3 * cofactor m i0 i3.

Definition adjugate (m : mat4) : mat4 := build (λ i j, cofactor m j i).

Definition Qc_eqb (a b : Qc) : bool := Qeq_bool a b.

(** [k * a], every entry multiplied by [k]. *)
Definition scalar (k : Qc) (a : mat4) : mat4 := build (λ i j, k * entry a i j).

(** [trans.inverse_matrix(m)]: the inverse of [m], and an exception
    ([None]) when [m] is singular. *)
Definition inverse (m : mat4) : option mat4 :=
  if Qc_eqb (det m) 0 then None
  else Some (scalar (/ det m) (adjugate m)).

(** Modelled from the spec: [Translation.to_matrix], which is not among
    the sources.  "returns a translation matrix with the 3 components in
    the last column". *)
Definition translation_matrix (t : Translation Qc) : mat4 :=
  M4 (V4 1 0 0 (x t)) (V4 0 1 0 (y t)) (V4 0 0 1 (z t)) (V4 0 0 0 1).

(** Modelled from the spec: [Scale.to_matrix], which is not among the
    sources.  "returns a diagonal matrix; uniform scale applies the same
    factor to all three diagonal entries, non-uniform applies per-axis
    factors; the homogeneous (4,4) entry is always 1". *)
Definition scale_matrix (s : Scale Qc) : mat4 :=
  let '(sx, sy, sz) := factors s in
  M4 (V4 sx 0 0 0) (V4 0 sy 0 0) (V4 0 0 sz 0) (V4 0 0 0 1).

(** A scale is degenerate when one of its factors is 0. *)
Definition degenerate (s : Scale Qc) : Prop :=
  let '(sx, sy, sz) := factors s in sx = 0 ∨ sy = 0 ∨ sz = 0.

(** The translation back. *)
Definition opposite (t : Translation Qc) : Translation Qc :=
  mkTranslation (- x t) (- y t) (- z t).

Section rotation.
(** Cosine and sine of an angle given in degrees. *)
Variables cosd sind : Qc → Qc.

Definition rotation_x (a : Qc) : mat4 :=
  M4 (V4 1 0 0 0) (V4 0 (cosd a) (- sind a) 0) (V4 0 (sind a) (cosd a) 0)
     (V4 0 0 0 1).
Definition rotation_y (a : Qc) : mat4 :=
  M4 (V4 (cosd a) 0 (sind a) 0) (V4 0 1 0 0) (V4 (- sind a) 0 (cosd a) 0)
     (V4 0 0 0 1).
Definition rotation_z (a : Qc) : mat4 :=
  M4 (V4 (cosd a) (- sind a) 0 0) (V4 (sind a) (cosd a) 0 0) (V4 0 0 1 0)
     (V4 0 0 0 1).

(** Modelled from the spec: [RotationEulerDegrees.to_matrix] and
    [RotationQuaternion.to_matrix], which are not among the sources.
    Euler angles: "composed into a rotation matrix using a fixed,
    explicit axis order", here X, then Y, then Z.  Quaternion: "the
    standard quaternion-to-rotation-matrix formula", here on the
    quaternion divided by its norm, and the identity for the zero
    quaternion. *)
Definition rotation_matrix (r : RotationBase Qc) : mat4 :=
  match r with
  | RotationEulerDegrees ax ay az =>
      dot (dot (rotation_x ax) (rotation_y ay)) (rotation_z az)
  | RotationQuaternion qx qy qz qw =>
      let n := qx * qx + qy * qy + qz * qz + qw * qw in
      if Qc_eqb n 0 then identity
      else
        let s := (1 + 1) / n in
        M4 (V4 (1 - s * (qy * qy + qz * qz)) (s * (qx * qy - qz * qw))
               (s * (qx * qz + qy * qw)) 0)
           (V4 (s * (qx * qy + qz * qw)) (1 - s * (qx * qx + qz * qz))
               (s * (qy * qz - qx * qw)) 0)
           (V4 (s * (qx * qz - qy * qw)) (s * (qy * qz + qx * qw))
               (1 - s * (qx * qx + qy * qy)) 0)
           (V4 0 0 0 1)
  end.

(** The cosine and the sine of [a] lie on the unit circle. *)
Definition on_circle (a : Qc) : Prop :=
  cosd a * cosd a + sind a * sind a = 1.

#[local] Instance numeric : Numeric Qc mat4 := {|
  np_zeros := zeros;
  np_dot := dot;
  np_T := transpose;
  inverse_matrix := inverse;
  Translation_to_matrix := translation_matrix;
  Rotation_to_matrix := rotation_matrix;
  Scale_to_matrix := scale_matrix
|}.
End rotation.

(** A rotation matrix is orthonormal when its product with its transpose
    is the identity. *)
Definition orthonormal (m : mat4) : Prop := dot m (transpose m) = identity.

(** Equality of matrices, decided entry by entry. *)
Definition vec4_eqb (a b : vec4) : bool :=
  Qc_eqb (c0 a) (c0 b) && Qc_eqb (c1 a) (c1 b)
  && Qc_eqb (c2 a) (c2 b) && Qc_eqb (c3 a) (c3 b).

Definition mat4_eqb (a b : mat4) : bool :=
  vec4_eqb (r0 a) (r0 b) && vec4_eqb (r1 a) (r1 b)
  && vec4_eqb (r2 a) (r2 b) && vec4_eqb (r3 a) (r3 b).

(** *** Running the model *)

(** Among the rational angles, only the multiples of 90 degrees have a
    rational cosine and a rational sine.  The table is exact there and
    gives 0 for both elsewhere: the rotation matrix of any other angle is
    then singular, and [update] raises instead of computing with a matrix
    that is not the one of the angle. *)
Definition quarter_turns (a : Qc) : option Z :=
  let q := Qred (this a / 90) in
  if Pos.eqb (Qden q) 1 then Some (Qnum q mod 4)%Z else None.

Definition cosd (a : Qc) : Qc :=
  match quarter_turns a with
  | Some 0%Z => 1
  | Some 2%Z => - (1)
  | _ => 0
  end.

Definition sind (a : Qc) : Qc :=
  match quarter_turns a with
  | Some 1%Z => 1
  | Some 3%Z => - (1)
  | _ => 0
  end.

#[global] Instance exact_numeric : Numeric Qc mat4 := numeric cosd sind.
End Rational.

(** ** Nodes and scenes to run the model on *)

Module Scenes.
Import Physical PhysicalNode Rational.
Local Open Scope Qc_scope.

(** [Physical()], as lemma [init_default] shows. *)
Definition at_origin : Physical Qc mat4 :=
  mkPhysical (mkTranslation 0 0 0) (RotationEulerDegrees 0 0 0)
    (ScaleUniform 1) identity identity identity.

(** [n = Physical(); n.pos = (1, 0, 0)]: the matrices are still those of
    the constructor. *)
Definition shifted : Physical Qc mat4 :=
  mkPhysical (mkTranslation 1 0 0) (RotationEulerDegrees 0 0 0)
    (ScaleUniform 1) identity identity identity.

(** [n = Physical(); n.pos = (1, 0, 0); n.scale = 0] *)
Definition flattened : Physical Qc mat4 :=
  mkPhysical (mkTranslation 1 0 0) (RotationEulerDegrees 0 0 0)
    (ScaleUniform 0) identity identity identity.

(** The translation by (1, 0, 0), its inverse, and the inverse of its
    transpose. *)
Definition shift : mat4 :=
  M4 (V4 1 0 0 1) (V4 0 1 0 0) (V4 0 0 1 0) (V4 0 0 0 1).
Definition shift_back : mat4 :=
  M4 (V4 1 0 0 (- (1))) (V4 0 1 0 0) (V4 0 0 1 0) (V4 0 0 0 1).
Definition shift_normal : mat4 :=
  M4 (V4 1 0 0 0) (V4 0 1 0 0) (V4 0 0 1 0) (V4 (- (1)) 0 0 1).

(** The quarter turn about the X axis. *)
Definition quarter : mat4 :=
  M4 (V4 1 0 0 0) (V4 0 0 (- (1)) 0) (V4 0 1 0 0) (V4 0 0 0 1).

(** [Physical(rotation=(90, 0, 0))], as lemma [init_quarter_turned]
    shows. *)
Definition quarter_turned : Physical Qc mat4 :=
  mkPhysical (mkTranslation 0 0 0) (RotationEulerDegrees (Q2Qc 90) 0 0)
    (ScaleUniform 1) quarter quarter (transpose quarter).

(** [parent = PhysicalNode(position=(1, 0, 0))] and then
    [child = PhysicalNode(parent=parent)], in an empty store. *)
Definition family : cmd (gmap ref (PhysicalNode Qc mat4)) (ref * ref) :=
  p ← PhysicalNode.__init__ None [1; 0; 0] [0; 0; 0] 1;
  c ← PhysicalNode.__init__ (Some p) [0; 0; 0] [0; 0; 0] 1;
  mret (p, c).

Definition scene : gmap ref (PhysicalNode Qc mat4) := (family ∅).2.

(** The two objects of [scene], as lemmas [scene_parent] and
    [scene_child] show. *)
Definition the_parent : PhysicalNode Qc mat4 :=
  mkPhysicalNode
    (mkPhysical (mkTranslation 1 0 0) (RotationEulerDegrees 0 0 0)
       (ScaleUniform 1) shift shift_normal shift_back)
    None shift shift_normal shift_back.

Definition the_child : PhysicalNode Qc mat4 :=
  mkPhysicalNode at_origin (Some 0%nat) shift shift_normal shift_normal.
End Scenes.

(** ** More of the exact model *)

Module RationalMore.
Import PhysicalNode Rational.
Local Open Scope Qc_scope.

(** The scale that undoes [s], factor by factor. *)
Definition reciprocal (s : Scale Qc) : Scale Qc :=
  let '(sx, sy, sz) := factors s in ScaleXYZ (/ sx) (/ sy) (/ sz).

(** [PhysicalNode.position_global]:
    [tuple(self.model_matrix_global[:3, -1].tolist())], the first three
    entries of the last column. *)
Definition position_global (self : PhysicalNode Qc mat4) : Qc * Qc * Qc :=
  let g := model_matrix_global self in
  (entry g i0 i3, entry g i1 i3, entry g i2 i3).

(** The point [t] moved by the matrix [g]: the first three entries of [g]
    applied to the column (x, y, z, 1). *)
Definition moved (g : mat4) (t : Translation Qc) : Qc * Qc * Qc :=
  (entry g i0 i0 * x t + entry g i0 i1 * y t + entry g i0 i2 * z t + entry g i0 i3,
   entry g i1 i0 * x t + entry g i1 i1 * y t + entry g i1 i2 * z t + entry g i1 i3,
   entry g i2 i0 * x t + entry g i2 i1 * y t + entry g i2 i2 * z t + entry g i2 i3).
End RationalMore.

(** ** [graphics/core/utils.py] *)

Module utils.
Local Open Scope Z_scope.

(** The exceptions of [utils.py].  [ArgumentError] is what ctypes raises
    when a list is passed where a GL name is expected. *)
Inductive error : Set :=
  | AssertionError
  | BufferError (status : Z)
  | IndexError
  | ArgumentError.

Inductive result (A : Type) : Type :=
  | Returns (a : A)
  | Raises (e : error).
Arguments Returns {A} a.
Arguments Raises {A} e.

(** The calls into [pyglet.gl] that [utils.py] makes, with their
    arguments. *)
Inductive gen_function : Set :=
  | glGenTextures
  | glGenFramebuffersEXT
  | glGenRenderbuffersEXT
  | glGenVertexArrays
  | glGenBuffers.

Inductive gl_call : Set :=
  | glGen (f : gen_function) (n : Z)
  | glActiveTexture (texture : Z)
  | glBindTexture (target texture : Z)
  | glTexParameterf (target pname param : Z)
  | glTexImage2D (target level internalformat width height border format
                  type pixels : Z)
  | glBindFramebufferEXT (target framebuffer : Z)
  | glDrawBuffer (mode : Z)
  | glReadBuffer (mode : Z)
  | glFramebufferTexture2DEXT (target attachment textarget texture level : Z)
  | glBindRenderbufferEXT (target renderbuffer : Z)
  | glRenderbufferStorageEXT (target internalformat width height : Z)
  | glFramebufferRenderbufferEXT (target attachment renderbuffertarget
                                  renderbuffer : Z)
  | glCheckFramebufferStatusEXT (target : Z)
  | glViewport (x y width height : Z).

(** The constants of [pyglet.gl] that [utils.py] names. *)
Class constants : Set := {
  GL_TEXTURE0 : Z;
  GL_TEXTURE_2D : Z;
  GL_TEXTURE_CUBE_MAP : Z;
  GL_TEXTURE_CUBE_MAP_POSITIVE_X : Z;
  GL_TEXTURE_MIN_FILTER : Z;
  GL_TEXTURE_MAG_FILTER : Z;
  GL_TEXTURE_WRAP_S : Z;
  GL_TEXTURE_WRAP_T : Z;
  GL_TEXTURE_WRAP_R : Z;
  GL_LINEAR : Z;
  GL_CLAMP_TO_EDGE : Z;
  GL_DEPTH_COMPONENT : Z;
  GL_DEPTH_COMPONENT24 : Z;
  GL_R8 : Z;
  GL_RED : Z;
  GL_RGBA : Z;
  GL_UNSIGNED_BYTE : Z;
  GL_NONE : Z;
  GL_FRAMEBUFFER_EXT : Z;
  GL_RENDERBUFFER_EXT : Z;
  GL_DEPTH_ATTACHMENT_EXT : Z;
  GL_COLOR_ATTACHMENT0_EXT : Z;
  GL_FRAMEBUFFER_COMPLETE_EXT : Z
}.

(** A program that talks to the GL: it starts after the calls made so far
    and leaves the calls made so far behind, the oldest first. *)
Definition io (A : Type) : Type := list gl_call → result A * list gl_call.

#[global] Instance io_ret : MRet io := λ A a t, (Returns a, t).

#[global] Instance io_bind : MBind io := λ A B f c t,
  match c t with
  | (Returns a, t') => f a t'
  | (Raises e, t') => (Raises e, t')
  end.

Definition throw {A} (e : error) : io A := λ t, (Raises e, t).

(** A call that returns nothing. *)
Definition gl (c : gl_call) : io () := λ t, (Returns (), t ++ [c]).

(** [for x in xs: body(x)] *)
Fixpoint for_each {A} (xs : list A) (body : A → io ()) : io () :=
  match xs with
  | [] => mret ()
  | x :: xs' => body x ;; for_each xs' body
  end.

(** What [create_opengl_object] returns: [handle.value], or a list. *)
Inductive handles : Set :=
  | Handle (value : Z)
  | Handles (values : list Z).

(** [create_opengl_object(gl_gen_function, n=1)].  [gl_gen_function] is
    called with [n] and a reference to [handle], which holds 1; what it
    returns here is the value [handle] holds afterwards. *)
Definition create_opengl_object (gl_gen_function : Z → Z → io Z) (n : Z)
  : io handles :=
  value ← gl_gen_function n 1;
  if decide (n > 1) then mret (Handles ((λ el, value + el) <$> seqZ 0 n))
  else mret (Handle value).

(** [FBO = namedtuple('FBO', 'id texture texture_slot size')] *)
Record FBO : Set := mkFBO {
  id : Z;
  texture : Z;
  texture_slot : Z;
  size : Z * Z
}.

Section gl.
Context {GL : constants}.

(** The driver: the name it writes into the handle at a call of a
    [glGen...] function, given the calls made before, the function, [n]
    and the value the handle held; and the status it reports at
    [glCheckFramebufferStatusEXT], given the calls made before. *)
Variable generated : list gl_call → gen_function → Z → Z → Z.
Variable status : list gl_call → Z.

Definition gl_gen (f : gen_function) (n held : Z) : io Z := λ t,
  (Returns (generated t f n held), t ++ [glGen f n]).

Definition check_status (target : Z) : io Z := λ t,
  (Returns (status t), t ++ [glCheckFramebufferStatusEXT target]).

(** A GL name where the call needs one: [handle.value] is one, a list is
    not. *)
Definition name (h : handles) : io Z :=
  match h with
  | Handle value => mret value
  | Handles _ => throw ArgumentError
  end.

(** [create_fbo(texture_type, width, height, texture_slot=0, color=True,
    depth=True, grayscale=False)], statement by statement.  Every
    [create_opengl_object] is called with the default [n], so that what it
    returns is a name. *)
Definition create_fbo (texture_type width height texture_slot : Z)
    (color depth grayscale : bool) : io FBO :=
  (if color || depth then mret () else throw AssertionError) ;;
  gl (glActiveTexture (GL_TEXTURE0 + texture_slot)) ;;
  texture ← create_opengl_object (gl_gen glGenTextures) 1 ≫= name;
  gl (glBindTexture texture_type texture) ;;
  gl (glTexParameterf texture_type GL_TEXTURE_MIN_FILTER GL_LINEAR) ;;
  gl (glTexParameterf texture_type GL_TEXTURE_MAG_FILTER GL_LINEAR) ;;
  gl (glTexParameterf texture_type GL_TEXTURE_WRAP_S GL_CLAMP_TO_EDGE) ;;
  gl (glTexParameterf texture_type GL_TEXTURE_WRAP_T GL_CLAMP_TO_EDGE) ;;
  (if decide (texture_type = GL_TEXTURE_CUBE_MAP)
   then gl (glTexParameterf texture_type GL_TEXTURE_WRAP_R GL_CLAMP_TO_EDGE)
   else mret ()) ;;
  let internal_format :=
    if depth && negb color then GL_DEPTH_COMPONENT
    else if grayscale then GL_R8 else GL_RGBA in
  let pixel_format :=
    if depth && negb color then GL_DEPTH_COMPONENT
    else if grayscale then GL_RED else GL_RGBA in
  (if decide (texture_type = GL_TEXTURE_2D) then
     gl (glTexImage2D GL_TEXTURE_2D 0 internal_format width height 0
           pixel_format GL_UNSIGNED_BYTE 0)
   else if decide (texture_type = GL_TEXTURE_CUBE_MAP) then
     for_each (seqZ 0 6) (λ face,
       gl (glTexImage2D (GL_TEXTURE_CUBE_MAP_POSITIVE_X + face) 0
             internal_format width height 0 pixel_format GL_UNSIGNED_BYTE 0))
   else mret ()) ;;
  fbo ← create_opengl_object (gl_gen glGenFramebuffersEXT) 1 ≫= name;
  gl (glBindFramebufferEXT GL_FRAMEBUFFER_EXT fbo) ;;
  (if depth && negb color
   then gl (glDrawBuffer GL_NONE) ;; gl (glReadBuffer GL_NONE)
   else mret ()) ;;
  let attachment_point :=
    if depth && negb color then GL_DEPTH_ATTACHMENT_EXT
    else GL_COLOR_ATTACHMENT0_EXT in
  let attached_texture2D_type :=
    if decide (texture_type = GL_TEXTURE_CUBE_MAP)
    then GL_TEXTURE_CUBE_MAP_POSITIVE_X else GL_TEXTURE_2D in
  gl (glFramebufferTexture2DEXT GL_FRAMEBUFFER_EXT attachment_point
        attached_texture2D_type texture 0) ;;
  (if color && depth then
     renderbuffer ← create_opengl_object (gl_gen glGenRenderbuffersEXT) 1 ≫= name;
     gl (glBindRenderbufferEXT GL_RENDERBUFFER_EXT renderbuffer) ;;
     gl (glRenderbufferStorageEXT GL_RENDERBUFFER_EXT GL_DEPTH_COMPONENT24
           width height) ;;
     gl (glFramebufferRenderbufferEXT GL_FRAMEBUFFER_EXT
           GL_DEPTH_ATTACHMENT_EXT GL_RENDERBUFFER_EXT renderbuffer)
   else mret ()) ;;
  FBOstatus ← check_status GL_FRAMEBUFFER_EXT;
  (if decide (FBOstatus ≠ GL_FRAMEBUFFER_COMPLETE_EXT)
   then throw (BufferError FBOstatus) else mret ()) ;;
  gl (glBindFramebufferEXT GL_FRAMEBUFFER_EXT 0) ;;
  mret (mkFBO fbo texture texture_slot (width, height)).

(** [class render_to_fbo]: the window, of which only [window.size] is
    read, and the FBO. *)
Record render_to_fbo : Set := mk_render_to_fbo {
  window_size : Z * Z;
  fbo : FBO
}.

Definition __enter__ (self : render_to_fbo) : io () :=
  gl (glBindFramebufferEXT GL_FRAMEBUFFER_EXT (id (fbo self))) ;;
  gl (glViewport 0 0 (size (fbo self)).1 (size (fbo self)).2).

Definition __exit__ (self : render_to_fbo) : io () :=
  gl (glBindFramebufferEXT GL_FRAMEBUFFER_EXT 0) ;;
  gl (glViewport 0 0 (window_size self).1 (window_size self).2).

(** [with render_to_fbo(window, fbo): body].  [__exit__] runs when the
    body returns and when it raises; it returns [None], so what the body
    raised is raised again. *)
Definition on_exit {A} (body : io A) (exit : io ()) : io A := λ t,
  match body t with
  | (r, t') =>
      match exit t' with
      | (Returns _, t'') => (r, t'')
      | (Raises e, t'') => (Raises e, t'')
      end
  end.

Definition with_render_to_fbo {A} (self : render_to_fbo) (body : io A) : io A :=
  __enter__ self ;; on_exit body (__exit__ self).
End gl.

(** The framebuffer bound after the calls [t]: the one of the last
    [glBindFramebufferEXT], and 0, the window, when there is none. *)
Definition bound_framebuffer (t : list gl_call) : Z :=
  foldl (λ bound c,
           match c with glBindFramebufferEXT _ f => f | _ => bound end) 0 t.

(** The viewport set after the calls [t], when one was set. *)
Definition viewport (t : list gl_call) : option (Z * Z * Z * Z) :=
  foldl (λ set c,
           match c with glViewport x y w h => Some (x, y, w, h) | _ => set end)
        None t.

(** What a program can ask the GL in place of
    [glGetIntegerv(GL_FRAMEBUFFER_BINDING)]. *)
Definition current_binding : io Z := λ t, (Returns (bound_framebuffer t), t).

Definition binds_framebuffer (c : gl_call) : bool :=
  match c with glBindFramebufferEXT _ _ => true | _ => false end.

Definition allocates_image (c : gl_call) : bool :=
  match c with glTexImage2D _ _ _ _ _ _ _ _ _ => true | _ => false end.

(** The values the OpenGL registry gives the constants. *)
Definition opengl : constants := {|
  GL_TEXTURE0 := 0x84C0;
  GL_TEXTURE_2D := 0x0DE1;
  GL_TEXTURE_CUBE_MAP := 0x8513;
  GL_TEXTURE_CUBE_MAP_POSITIVE_X := 0x8515;
  GL_TEXTURE_MIN_FILTER := 0x2801;
  GL_TEXTURE_MAG_FILTER := 0x2800;
  GL_TEXTURE_WRAP_S := 0x2802;
  GL_TEXTURE_WRAP_T := 0x2803;
  GL_TEXTURE_WRAP_R := 0x8072;
  GL_LINEAR := 0x2601;
  GL_CLAMP_TO_EDGE := 0x812F;
  GL_DEPTH_COMPONENT := 0x1902;
  GL_DEPTH_COMPONENT24 := 0x81A6;
  GL_R8 := 0x8229;
  GL_RED := 0x1903;
  GL_RGBA := 0x1908;
  GL_UNSIGNED_BYTE := 0x1401;
  GL_NONE := 0;
  GL_FRAMEBUFFER_EXT := 0x8D40;
  GL_RENDERBUFFER_EXT := 0x8D41;
  GL_DEPTH_ATTACHMENT_EXT := 0x8D00;
  GL_COLOR_ATTACHMENT0_EXT := 0x8CE0;
  GL_FRAMEBUFFER_COMPLETE_EXT := 0x8CD5
|}.

(** A driver to run the model with: names count the calls made so far,
    and every framebuffer is complete. *)
Definition counting (t : list gl_call) (f : gen_function) (n held : Z) : Z :=
  Z.of_nat (length t).
Definition complete (t : list gl_call) : Z := 0x8CD5.
Definition incomplete (t : list gl_call) : Z := 0x8CD6.

(** *** [setpriority] *)

Inductive priority_class : Set :=
  | IDLE_PRIORITY_CLASS
  | BELOW_NORMAL_PRIORITY_CLASS
  | NORMAL_PRIORITY_CLASS
  | ABOVE_NORMAL_PRIORITY_CLASS
  | HIGH_PRIORITY_CLASS
  | REALTIME_PRIORITY_CLASS.

(** The calls into [win32api] and [win32process]. *)
Inductive win32_call : Set :=
  | GetCurrentProcessId
  | OpenProcess (access : Z) (inherit : bool) (pid : Z)
  | SetPriorityClass (handle : Z) (class : priority_class).

(** [xs[i]] on a Python list: a negative index counts from the end, and
    an index outside the list is an [IndexError]. *)
Definition getitem {A} (xs : list A) (i : Z) : result A :=
  let n := Z.of_nat (length xs) in
  let j := if decide (i < 0) then i + n else i in
  if decide (0 ≤ j < n) then
    match xs !! Z.to_nat j with
    | Some x => Returns x
    | None => Raises IndexError
    end
  else Raises IndexError.

Section win32.
(** [win32con.PROCESS_ALL_ACCESS], the id of the current process, and the
    handle [OpenProcess] returns for a process id. *)
Variables (PROCESS_ALL_ACCESS current : Z) (opened : Z → Z).

(** [setpriority(pid=None, priority=1)]: the outcome and the calls made,
    the oldest first.  The win32 calls themselves are taken to return. *)
Definition setpriority (pid : option Z) (priority : Z)
  : result () * list win32_call :=
  let priorityclasses :=
    [IDLE_PRIORITY_CLASS; BELOW_NORMAL_PRIORITY_CLASS; NORMAL_PRIORITY_CLASS;
     ABOVE_NORMAL_PRIORITY_CLASS; HIGH_PRIORITY_CLASS; REALTIME_PRIORITY_CLASS] in
  let '(pid, calls) :=
    match pid with
    | None => (current, [GetCurrentProcessId])
    | Some pid => (pid, [])
    end in
  let handle := opened pid in
  let calls := calls ++ [OpenProcess PROCESS_ALL_ACCESS true pid] in
  match getitem priorityclasses priority with
  | Raises e => (Raises e, calls)
  | Returns class => (Returns (), calls ++ [SetPriorityClass handle class])
  end.
End win32.
End utils.

(** *** [vec] *)

Module vectors.
Import Stdlib.Strings.String.

(** [needle in text] on two Python strings: [needle] occurs in [text]. *)
Fixpoint occurs (needle text : string) : bool :=
  if prefix needle text then true
  else match text with
       | EmptyString => false
       | String _ rest => occurs needle rest
       end.

(** What [vec] returns: an array of [GLfloat] or of [GLuint] made from
    the given values, in their order.  How ctypes converts a value to the
    element type is not part of the model. *)
Inductive glarray (V : Type) : Type :=
  | GLfloat_array (values : list V)
  | GLuint_array (values : list V).
Arguments GLfloat_array {V} values.
Arguments GLuint_array {V} values.

(** [vec(floatlist, newtype='float')].  Without a [return] for a
    [newtype] that names neither type, the result is [None]. *)
Definition vec {V} (floatlist : list V) (newtype : string)
  : option (glarray V) :=
  if occurs "float" newtype then Some (GLfloat_array floatlist)
  else if occurs "int" newtype then Some (GLuint_array floatlist)
  else None.
End vectors.

(** ** More scenes *)

Module MoreScenes.
Import Physical PhysicalNode Rational Scenes.
Local Open Scope Qc_scope.

(** [scene] after [child.pos = (1, 0, 0); child.scale = 0]. *)
Definition flat_child : PhysicalNode Qc mat4 :=
  mkPhysicalNode flattened (Some 0%nat) shift shift_normal shift_normal.

Definition flat_scene : gmap ref (PhysicalNode Qc mat4) :=
  <[1%nat := flat_child]> scene.

(** The half turn about the X axis, as a quaternion. *)
Definition half_turn : RotationBase Qc := RotationQuaternion 1 0 0 0.

(** [scene] after [child.pos = (0, 1, 0)], [child.rot = (1, 0, 0, 0)] and
    [child.scale = 2]. *)
Definition far_child : PhysicalNode Qc mat4 :=
  mkPhysicalNode
    (mkPhysical (mkTranslation 0 1 0) half_turn (ScaleUniform (1 + 1))
       identity identity identity)
    (Some 0%nat) shift shift_normal shift_normal.

Definition far_scene : gmap ref (PhysicalNode Qc mat4) :=
  <[1%nat := far_child]> scene.

(** A [with] block inside a [with] block, on two FBOs. *)
Definition outer_block : utils.render_to_fbo :=
  utils.mk_render_to_fbo (800, 600)%Z (utils.mkFBO 7 3 0 (256, 256))%Z.
Definition inner_block : utils.render_to_fbo :=
  utils.mk_render_to_fbo (800, 600)%Z (utils.mkFBO 9 4 1 (64, 64))%Z.

(** [create_fbo(GL_TEXTURE_2D, 640, 480, texture_slot=2)] and
    [create_fbo(GL_TEXTURE_CUBE_MAP, 64, 64, color=False)] as the first GL
    calls of a program, the second with a driver that reports an
    incomplete framebuffer. *)
Definition screen_fbo : utils.io utils.FBO :=
  utils.create_fbo (GL := utils.opengl) utils.counting utils.complete
    0x0DE1 640 480 2 true true false.
Definition shadow_fbo : utils.io utils.FBO :=
  utils.create_fbo (GL := utils.opengl) utils.counting utils.incomplete
    0x8513 64 64 0 false true false.
End MoreScenes.

(** * What [Physical] does, for every implementation of the libraries *)

(** Unfolding the commands of this development down to their states. *)
Ltac run_cmd :=
  cbv [mbind cmd_bind mret cmd_ret get put raise call
       Physical.super_update Physical.trans_inverse_matrix
       Physical.store_model_matrix Physical.store_view_matrix
       Physical.store_normal_matrix Physical.store_pos Physical.store_rot
       Physical.store_scale Physical.pos Physical.rot Physical.scale].

Module PhysicalFacts.
Import Physical.
Section facts.
Context {F M : Type} {lib : Numeric F M}.
Implicit Types self other : Physical F M.

(** [update] statement by statement: the state it leaves behind at each
    of its three exits. *)
Lemma update_eq self :
  update self =
    let m0 := np_dot (Translation_to_matrix (_pos self))
                     (Rotation_to_matrix (_rot self)) in
    match inverse_matrix m0 with
    | None =>
        (Raise LinAlgError,
         mkPhysical (_pos self) (_rot self) (_scale self)
           m0 (normal_matrix self) (view_matrix self))
    | Some v =>
        let m1 := np_dot m0 (Scale_to_matrix (_scale self)) in
        match inverse_matrix (np_T m1) with
        | None =>
            (Raise LinAlgError,
             mkPhysical (_pos self) (_rot self) (_scale self)
               m1 (normal_matrix self) v)
        | Some n =>
            (Ok (), mkPhysical (_pos self) (_rot self) (_scale self) m1 n v)
        end
    end.
Proof.
  unfold update. run_cmd. cbv [model_matrix _pos _rot _scale].
  destruct (inverse_matrix _) as [v|]; [|reflexivity].
  destruct (inverse_matrix (np_T _)) as [n|]; reflexivity.
Qed.

(** A successful [update] keeps the primitives and stores three
    matrices that are functions of the primitives alone. *)
Lemma update_ok self self' :
  update self = (Ok (), self') →
  ∃ v n,
    inverse_matrix (np_dot (Translation_to_matrix (_pos self))
                           (Rotation_to_matrix (_rot self))) = Some v ∧
    inverse_matrix
      (np_T (np_dot (np_dot (Translation_to_matrix (_pos self))
                            (Rotation_to_matrix (_rot self)))
                    (Scale_to_matrix (_scale self)))) = Some n ∧
    self' = mkPhysical (_pos self) (_rot self) (_scale self)
              (np_dot (np_dot (Translation_to_matrix (_pos self))
                              (Rotation_to_matrix (_rot self)))
                      (Scale_to_matrix (_scale self))) n v.
Proof.
  rewrite update_eq. cbv zeta.
  destruct (inverse_matrix _) as [v|] eqn:Hv; [|discriminate].
  destruct (inverse_matrix (np_T _)) as [n|] eqn:Hn; [|discriminate].
  intros [= <-]. eauto.
Qed.

(** [update] never raises anything but [LinAlgError], and never touches
    the primitives. *)
Lemma update_raises self e self' :
  update self = (Raise e, self') → e = LinAlgError.
Proof.
  rewrite update_eq. cbv zeta.
  destruct (inverse_matrix _); [destruct (inverse_matrix _)|]; congruence.
Qed.

Lemma update_primitives self :
  _pos (update self).2 = _pos self ∧ _rot (update self).2 = _rot self
  ∧ _scale (update self).2 = _scale self.
Proof.
  rewrite update_eq. cbv zeta.
  destruct (inverse_matrix _); [destruct (inverse_matrix _)|]; done.
Qed.

(** Two nodes with the same primitives leave [update] the same way. *)
Lemma update_same_primitives self other self' :
  _pos other = _pos self → _rot other = _rot self →
  _scale other = _scale self →
  update self = (Ok (), self') →
  ∃ other', update other = (Ok (), other') ∧
    model_matrix other' = model_matrix self' ∧
    normal_matrix other' = normal_matrix self' ∧
    view_matrix other' = view_matrix self' ∧
    _pos other' = _pos self' ∧ _rot other' = _rot self' ∧
    _scale other' = _scale self'.
Proof.
  intros Hp Hr Hs (v & n & Hv & Hn & ->)%update_ok.
  rewrite (update_eq other), Hp, Hr, Hs. cbv zeta. rewrite Hv, Hn.
  eexists. split; [reflexivity|]. done.
Qed.

(** The [rot] setter on sequences of three and of four values. *)
Lemma set_rot_three self (x y z : F) :
  set_rot (Sequence [x; y; z]) self =
    (Ok (), mkPhysical (_pos self) (RotationEulerDegrees x y z) (_scale self)
              (model_matrix self) (normal_matrix self) (view_matrix self)).
Proof. reflexivity. Qed.

Lemma set_rot_four self (x y z w : F) :
  set_rot (Sequence [x; y; z; w]) self =
    (Ok (), mkPhysical (_pos self) (RotationQuaternion x y z w) (_scale self)
              (model_matrix self) (normal_matrix self) (view_matrix self)).
Proof. reflexivity. Qed.

(** A sequence of any other length is accepted and ignored. *)
Lemma set_rot_ignored self (coords : list F) :
  length coords ≠ 3 → length coords ≠ 4 →
  set_rot (Sequence coords) self = (Ok (), self).
Proof.
  intros H3 H4. unfold set_rot.
  destruct (decide (length coords = 3)); [done|].
  destruct (decide (length coords = 4)); done.
Qed.

(** A constructed node holds the three Euler angles it was given. *)
Lemma init_inv (position rotation : list F) (s : F) self :
  __init__ position rotation s = Ok self →
  ∃ x y z p, rotation = [x; y; z] ∧ new_Translation position = Ok p ∧
    update (mkPhysical p (RotationEulerDegrees x y z) (ScaleUniform s)
              np_zeros np_zeros np_zeros) = (Ok (), self).
Proof.
  unfold __init__, init_fields.
  destruct rotation as [|x [|y [|z [|? ?]]]]; try discriminate.
  cbn [new_RotationEulerDegrees].
  destruct (new_Translation position) as [p|]; [|discriminate].
  destruct (update _) as [[[]|e] self0] eqn:Hu; [|discriminate].
  intros [= <-]. eauto 10.
Qed.

(** C2: after [update()] the local [view_matrix] is the inverse of
    [position.to_matrix()] multiplied by [rotation.to_matrix()], and it
    does not depend on the scale: any node with the same position and
    rotation, whatever its scale and its previous matrices, gets the same
    [view_matrix] from its own [update()]. *)
Theorem update_view_matrix self self' :
  update self = (Ok (), self') →
  inverse_matrix (np_dot (Translation_to_matrix (pos self))
                         (Rotation_to_matrix (rot self)))
    = Some (view_matrix self')
  ∧ ∀ other other',
      pos other = pos self → rot other = rot self →
      update other = (Ok (), other') →
      view_matrix other' = view_matrix self'.
Proof.
  intros (v & n & Hv & Hn & ->)%update_ok. split; [exact Hv|].
  intros other other' Hp Hr (v' & n' & Hv' & Hn' & ->)%update_ok.
  unfold pos, rot in *. rewrite Hp, Hr in Hv'. cbn. congruence.
Qed.

(** C5, at a sequence of two values: the [rot] setter raises nothing and
    leaves the node as it was, rotation included. *)
Theorem set_rot_two_values self (a b : F) :
  set_rot (Sequence [a; b]) self = (Ok (), self).
Proof. reflexivity. Qed.

(** C6, amended: [update()] has three exits.  It returns with all three
    matrices recomputed; or the inversion for [view_matrix] raises, and
    [model_matrix] already holds position x rotation while [view_matrix]
    and [normal_matrix] keep their previous values; or the inversion for
    [normal_matrix] raises, and [model_matrix] and [view_matrix] are
    already overwritten while [normal_matrix] keeps its previous value. *)
Theorem update_exits self :
  let m0 := np_dot (Translation_to_matrix (pos self))
                   (Rotation_to_matrix (rot self)) in
  let m1 := np_dot m0 (Scale_to_matrix (scale self)) in
  (∃ v n, inverse_matrix m0 = Some v ∧ inverse_matrix (np_T m1) = Some n ∧
      update self =
        (Ok (), mkPhysical (pos self) (rot self) (scale self) m1 n v))
  ∨ (inverse_matrix m0 = None ∧
      update self =
        (Raise LinAlgError,
         mkPhysical (pos self) (rot self) (scale self)
           m0 (normal_matrix self) (view_matrix self)))
  ∨ (∃ v, inverse_matrix m0 = Some v ∧ inverse_matrix (np_T m1) = None ∧
      update self =
        (Raise LinAlgError,
         mkPhysical (pos self) (rot self) (scale self)
           m1 (normal_matrix self) v)).
Proof.
  intros m0 m1. rewrite update_eq. fold (pos self) (rot self) (scale self).
  fold m0. cbv zeta. fold m1.
  destruct (inverse_matrix m0) as [v|] eqn:Hv; [|right; left; done].
  destruct (inverse_matrix (np_T m1)) as [n|] eqn:Hn.
  - left. eauto.
  - right; right. eauto.
Qed.

(** C7: assigning to [pos], [rot] or [scale] leaves the three matrices
    and the other two primitives as they were, whatever is assigned and
    whether or not the assignment raises. *)
Theorem setters_frame self :
  (∀ coords, let self' := (set_pos coords self).2 in
      rot self' = rot self ∧ scale self' = scale self ∧
      model_matrix self' = model_matrix self ∧
      normal_matrix self' = normal_matrix self ∧
      view_matrix self' = view_matrix self)
  ∧ (∀ coords, let self' := (set_rot coords self).2 in
      pos self' = pos self ∧ scale self' = scale self ∧
      model_matrix self' = model_matrix self ∧
      normal_matrix self' = normal_matrix self ∧
      view_matrix self' = view_matrix self)
  ∧ (∀ coords, let self' := (set_scale coords self).2 in
      pos self' = pos self ∧ rot self' = rot self ∧
      model_matrix self' = model_matrix self ∧
      normal_matrix self' = normal_matrix self ∧
      view_matrix self' = view_matrix self).
Proof.
  split; [|split]; intros [o|l|v]; cbn; try done.
  - unfold set_pos. run_cmd. by destruct (new_Translation l).
  - unfold set_rot. run_cmd.
    destruct (decide (length l = 3)); [by destruct (new_RotationEulerDegrees l)|].
    destruct (decide (length l = 4)); [by destruct (new_RotationQuaternion l)|done].
  - unfold set_scale. run_cmd. by destruct (new_Scale l).
Qed.

(** C8, amended: a constructed node was given exactly three rotation
    values, and reading [rot] back yields the Euler-degrees
    representation holding these three values, never a quaternion; a
    quaternion representation holding four given values is what [rot]
    reads after the four values are assigned to it. *)
Theorem init_rot_round_trip (position rotation : list F) (s : F) self :
  __init__ position rotation s = Ok self →
  (∃ x y z, rotation = [x; y; z] ∧ rot self = RotationEulerDegrees x y z)
  ∧ ∀ x y z w,
      set_rot (Sequence [x; y; z; w]) self
        = (Ok (), mkPhysical (pos self) (RotationQuaternion x y z w)
                    (scale self) (model_matrix self) (normal_matrix self)
                    (view_matrix self)).
Proof.
  intros (x & y & z & p & -> & _ & Hu)%init_inv. split.
  - exists x, y, z. split; [done|].
    pose proof (update_primitives
      (mkPhysical p (RotationEulerDegrees x y z) (ScaleUniform s)
         np_zeros np_zeros np_zeros)) as (_ & Hr & _).
    rewrite Hu in Hr. exact Hr.
  - intros. apply set_rot_four.
Qed.
End facts.
End PhysicalFacts.

(** * What [PhysicalNode] does, for every implementation of the libraries *)

Module PhysicalNodeFacts.
Import Physical PhysicalNode.
Section facts.
Context {F M : Type} {lib : Numeric F M}.
Implicit Types (h : gmap ref (PhysicalNode F M)) (n par : PhysicalNode F M).
Implicit Types (self p : ref) (q : Physical F M).

Ltac run_store :=
  cbv [update inherited load put_node store_model_matrix_global
       store_normal_matrix_global store_view_matrix_global
       mbind cmd_bind mret cmd_ret get put raise call];
  cbn [physical parent model_matrix_global normal_matrix_global
       view_matrix_global].

Ltac step_store :=
  repeat first
    [ rewrite lookup_insert_eq
    | rewrite insert_insert_eq
    | progress cbn [physical parent model_matrix_global
                    normal_matrix_global view_matrix_global] ].

(** The inherited [update] raised: the exception passes through, with
    whatever the inherited [update] wrote. *)
Lemma update_raise h self n e q :
  h !! self = Some n → Physical.update (physical n) = (Raise e, q) →
  update self h =
    (Raise e, <[self := mkPhysicalNode q (parent n) (model_matrix_global n)
                          (normal_matrix_global n) (view_matrix_global n)]> h).
Proof. intros Hn Hu. run_store. rewrite Hn, Hu. reflexivity. Qed.

(** The branch without a parent. *)
Lemma update_root h self n q :
  h !! self = Some n → parent n = None →
  Physical.update (physical n) = (Ok (), q) →
  update self h =
    (Ok (), <[self := mkPhysicalNode q None (model_matrix q)
                        (normal_matrix q) (view_matrix q)]> h).
Proof.
  intros Hn Hp Hu. run_store. rewrite Hn, Hu. step_store. rewrite Hp.
  step_store. reflexivity.
Qed.

(** The branch with a parent.  The third assignment reads the parent
    again: when the node is its own parent, it reads what the second
    assignment has just written. *)
Lemma update_child h self n q p par :
  h !! self = Some n → parent n = Some p → h !! p = Some par →
  Physical.update (physical n) = (Ok (), q) →
  ∃ v, update self h =
    (Ok (), <[self := mkPhysicalNode q (Some p)
               (np_dot (model_matrix_global par) (model_matrix q))
               (np_dot (normal_matrix_global par) (normal_matrix q)) v]> h)
    ∧ (p ≠ self → v = np_dot (normal_matrix_global par) (normal_matrix q)).
Proof.
  intros Hn Hp Hpar Hu. run_store. rewrite Hn, Hu. step_store. rewrite Hp.
  destruct (decide (p = self)) as [->|Hne].
  - assert (par = n) as -> by congruence.
    step_store. eexists. split; [reflexivity|done].
  - do 3 (rewrite !(lookup_insert_ne _ self p) by done; rewrite Hpar;
          step_store).
    eexists. split; [reflexivity|done].
Qed.

(** What a successful [update] has done. *)
Lemma update_ok_inv h self h' :
  update self h = (Ok (), h') →
  ∃ n q, h !! self = Some n ∧ Physical.update (physical n) = (Ok (), q) ∧
    match parent n with
    | None =>
        h' = <[self := mkPhysicalNode q None (model_matrix q)
                         (normal_matrix q) (view_matrix q)]> h
    | Some p =>
        ∃ par v, h !! p = Some par ∧
          h' = <[self := mkPhysicalNode q (Some p)
                  (np_dot (model_matrix_global par) (model_matrix q))
                  (np_dot (normal_matrix_global par) (normal_matrix q)) v]> h
          ∧ (p ≠ self →
             v = np_dot (normal_matrix_global par) (normal_matrix q))
    end.
Proof.
  destruct (h !! self) as [n|] eqn:Hn.
  2: { run_store. rewrite Hn. discriminate. }
  destruct (Physical.update (physical n)) as [[[]|e] q] eqn:Hu.
  2: { rewrite (update_raise _ _ _ _ _ Hn Hu). discriminate. }
  intros H'. exists n, q. split; [done|]. split; [done|].
  destruct (parent n) as [p|] eqn:Hp.
  - destruct (h !! p) as [par|] eqn:Hpar.
    + destruct (update_child _ _ _ _ _ _ Hn Hp Hpar Hu) as (v & Hv & Hne).
      rewrite Hv in H'. injection H' as <-. eauto.
    + exfalso. revert H'. run_store. rewrite Hn, Hu. step_store. rewrite Hp.
      rewrite lookup_insert_ne by congruence. rewrite Hpar. discriminate.
  - rewrite (update_root _ _ _ _ Hn Hp Hu) in H'. by injection H' as <-.
Qed.

(** With a parent that is another object, [view_matrix_global] gets
    the very product that [normal_matrix_global] got. *)
Lemma update_view_global_parented h self n p h' :
  h !! self = Some n → parent n = Some p → p ≠ self →
  update self h = (Ok (), h') →
  ∃ n' par, h' !! self = Some n' ∧ h !! p = Some par ∧
    view_matrix_global n' =
      np_dot (normal_matrix_global par) (normal_matrix (physical n')) ∧
    view_matrix_global n' = normal_matrix_global n'.
Proof.
  intros Hn Hp Hne (n0 & q & Hn0 & Hu & Hh')%update_ok_inv.
  assert (n0 = n) as -> by congruence. rewrite Hp in Hh'.
  destruct Hh' as (par & v & Hpar & -> & Hv).
  eexists _, par. split; [apply lookup_insert_eq|]. cbn.
  rewrite Hv by done. done.
Qed.

(** C3: for a node with a parent, a successful [update()] leaves
    [model_matrix_global] equal to the parent's [model_matrix_global]
    multiplied by the node's local [model_matrix], and
    [normal_matrix_global] equal to the parent's [normal_matrix_global]
    multiplied by the node's local [normal_matrix]; the parent (another
    object) is as it was when [update()] was called. *)
Theorem update_global_parented h self n p par h' :
  h !! self = Some n → parent n = Some p → h !! p = Some par →
  update self h = (Ok (), h') →
  ∃ n', h' !! self = Some n' ∧
    model_matrix_global n' =
      np_dot (model_matrix_global par) (model_matrix (physical n')) ∧
    normal_matrix_global n' =
      np_dot (normal_matrix_global par) (normal_matrix (physical n')) ∧
    (p ≠ self → h' !! p = Some par).
Proof.
  intros Hn Hp Hpar (n0 & q & Hn0 & Hu & Hh')%update_ok_inv.
  assert (n0 = n) as -> by congruence. rewrite Hp in Hh'.
  destruct Hh' as (par0 & v & Hpar0 & -> & _).
  assert (par0 = par) as -> by congruence.
  eexists. split; [apply lookup_insert_eq|]. cbn.
  split; [done|]. split; [done|].
  intros Hne. by rewrite lookup_insert_ne.
Qed.

(** C4: for a node without a parent, a successful [update()] leaves each
    of the three global matrices equal to its local counterpart. *)
Theorem update_global_root h self n h' :
  h !! self = Some n → parent n = None →
  update self h = (Ok (), h') →
  ∃ n', h' !! self = Some n' ∧
    model_matrix_global n' = model_matrix (physical n') ∧
    normal_matrix_global n' = normal_matrix (physical n') ∧
    view_matrix_global n' = view_matrix (physical n').
Proof.
  intros Hn Hp (n0 & q & Hn0 & Hu & Hh')%update_ok_inv.
  assert (n0 = n) as -> by congruence. rewrite Hp in Hh'. subst h'.
  eexists. split; [apply lookup_insert_eq|]. done.
Qed.

(** C10: [update()] is idempotent.  Let a first [update()] of a node
    succeed, and let a second one start in any store where the node has
    the same position, rotation, scale and parent link, and where the
    parent (another object) has the same global model and normal
    matrices.  Then the second [update()] succeeds and leaves all six
    matrices of the node exactly as the first one left them. *)
Theorem update_idempotent h self h1 n1 h2 n2 :
  update self h = (Ok (), h1) →
  h1 !! self = Some n1 → h2 !! self = Some n2 →
  pos (physical n2) = pos (physical n1) →
  rot (physical n2) = rot (physical n1) →
  scale (physical n2) = scale (physical n1) →
  parent n2 = parent n1 →
  (∀ p, parent n1 = Some p →
     p ≠ self ∧ ∃ par1 par2, h1 !! p = Some par1 ∧ h2 !! p = Some par2 ∧
       model_matrix_global par2 = model_matrix_global par1 ∧
       normal_matrix_global par2 = normal_matrix_global par1) →
  ∃ h3 n3, update self h2 = (Ok (), h3) ∧ h3 !! self = Some n3 ∧
    matrices n3 = matrices n1.
Proof.
  intros (n & q & Hn & Hu & Hh1)%update_ok_inv Hn1 Hn2 Hpos Hrot Hscale
    Hparent Hpar.
  unfold pos, rot, scale in *.
  pose proof (PhysicalFacts.update_primitives (physical n)) as Hprim.
  rewrite Hu in Hprim. cbn in Hprim. destruct Hprim as (Hp1 & Hr1 & Hs1).
  assert (physical n1 = q ∧ parent n1 = parent n) as [Hq Hpn].
  { destruct (parent n) as [p|]; [destruct Hh1 as (? & ? & _ & -> & _)|subst h1];
      rewrite lookup_insert_eq in Hn1; injection Hn1 as <-; done. }
  rewrite Hq in Hpos, Hrot, Hscale.
  destruct (PhysicalFacts.update_same_primitives (physical n) (physical n2) q)
    as (q2 & Hu2 & Hm & Hnm & Hv & _); [congruence..|done|].
  destruct (parent n) as [p|] eqn:Hp.
  - destruct Hh1 as (par & v & Hparh & -> & Hv1).
    destruct (Hpar p Hpn) as (Hne & par1 & par2 & Hp1' & Hp2' & Hg & Hng).
    rewrite lookup_insert_ne in Hp1' by done.
    assert (par1 = par) as -> by congruence.
    rewrite lookup_insert_eq in Hn1. injection Hn1 as <-.
    destruct (update_child h2 self n2 q2 p par2) as (v2 & Hup & Hv2);
      [done|congruence|done|done|].
    eexists _, _. split; [exact Hup|]. split; [apply lookup_insert_eq|].
    unfold matrices. cbn. rewrite Hv1, Hv2 by done. congruence.
  - subst h1. rewrite lookup_insert_eq in Hn1. injection Hn1 as <-.
    eexists _, _. split; [apply (update_root h2 self n2 q2); [done|congruence|done]|].
    split; [apply lookup_insert_eq|]. unfold matrices. cbn. congruence.
Qed.
End facts.
End PhysicalNodeFacts.

(** * Exact arithmetic: what an inverse is *)

Module RationalFacts.
Import Physical Rational.
Local Open Scope Qc_scope.

(** A matrix taken apart into its sixteen entries. *)
Ltac mat_destruct m :=
  let a := fresh "r" in let b := fresh "r" in
  let c := fresh "r" in let d := fresh "r" in
  destruct m as [a b c d]; destruct a, b, c, d.

Ltac mat_unfold :=
  cbv [dot transpose adjugate scalar det cofactor minor others odd xorb build
       entry row component identity zeros r0 r1 r2 r3 c0 c1 c2 c3
       translation_matrix scale_matrix opposite factors x y z
       rotation_x rotation_y rotation_z].

(** Two matrices are equal when their entries are, as polynomials. *)
Ltac mat_ring := mat_unfold; f_equal; f_equal; ring.

Lemma Qc_eqb_true (a b : Qc) : Qc_eqb a b = true ↔ a = b.
Proof.
  unfold Qc_eqb. rewrite Qeq_bool_iff. split.
  - apply Qc_is_canon.
  - intros ->. reflexivity.
Qed.

Lemma Qc_eqb_false (a b : Qc) : Qc_eqb a b = false ↔ a ≠ b.
Proof.
  rewrite <- Qc_eqb_true. destruct (Qc_eqb a b); split; congruence.
Qed.

Lemma vec4_eqb_true (a b : vec4) : vec4_eqb a b = true ↔ a = b.
Proof.
  destruct a, b. unfold vec4_eqb. cbn [c0 c1 c2 c3].
  rewrite !andb_true_iff, !Qc_eqb_true. split.
  - intros [[[-> ->] ->] ->]. reflexivity.
  - intros [= -> -> -> ->]. done.
Qed.

Lemma mat4_eqb_true (a b : mat4) : mat4_eqb a b = true ↔ a = b.
Proof.
  destruct a, b. unfold mat4_eqb. cbn [r0 r1 r2 r3].
  rewrite !andb_true_iff, !vec4_eqb_true. split.
  - intros [[[-> ->] ->] ->]. reflexivity.
  - intros [= -> -> -> ->]. done.
Qed.

Lemma mat4_eqb_false (a b : mat4) : mat4_eqb a b = false ↔ a ≠ b.
Proof.
  rewrite <- mat4_eqb_true. destruct (mat4_eqb a b); split; congruence.
Qed.

(** *** The algebra of [np.dot] and [.T] *)

Lemma dot_assoc a b c : dot (dot a b) c = dot a (dot b c).
Proof. mat_destruct a; mat_destruct b; mat_destruct c. mat_ring. Qed.

Lemma dot_identity_l a : dot identity a = a.
Proof. mat_destruct a. mat_ring. Qed.

Lemma dot_identity_r a : dot a identity = a.
Proof. mat_destruct a. mat_ring. Qed.

Lemma transpose_dot a b : transpose (dot a b) = dot (transpose b) (transpose a).
Proof. mat_destruct a; mat_destruct b. mat_ring. Qed.

Lemma transpose_involutive a : transpose (transpose a) = a.
Proof. mat_destruct a. reflexivity. Qed.

Lemma transpose_identity : transpose identity = identity.
Proof. reflexivity. Qed.

Lemma dot_scalar_l k a b : dot (scalar k a) b = scalar k (dot a b).
Proof. mat_destruct a; mat_destruct b. mat_ring. Qed.

Lemma dot_scalar_r k a b : dot a (scalar k b) = scalar k (dot a b).
Proof. mat_destruct a; mat_destruct b. mat_ring. Qed.

Lemma scalar_scalar k l a : scalar k (scalar l a) = scalar (k * l) a.
Proof. mat_destruct a. mat_ring. Qed.

Lemma scalar_one a : scalar 1 a = a.
Proof. mat_destruct a. mat_ring. Qed.

(** *** Determinant and adjugate *)

Lemma adjugate_r m : dot m (adjugate m) = scalar (det m) identity.
Proof. mat_destruct m. mat_ring. Qed.

Lemma adjugate_l m : dot (adjugate m) m = scalar (det m) identity.
Proof. mat_destruct m. mat_ring. Qed.

Lemma det_dot a b : det (dot a b) = det a * det b.
Proof. mat_destruct a; mat_destruct b. mat_unfold. ring. Qed.

Lemma det_transpose a : det (transpose a) = det a.
Proof. mat_destruct a. mat_unfold. ring. Qed.

Lemma det_identity : det identity = 1.
Proof. mat_unfold. ring. Qed.

(** *** [trans.inverse_matrix] *)

Lemma inverse_None m : inverse m = None ↔ det m = 0.
Proof.
  unfold inverse. destruct (Qc_eqb (det m) 0) eqn:E.
  - apply Qc_eqb_true in E. done.
  - apply Qc_eqb_false in E. split; [discriminate|done].
Qed.

(** What is returned is an inverse, on both sides. *)
Lemma inverse_Some m m' :
  inverse m = Some m' → dot m m' = identity ∧ dot m' m = identity.
Proof.
  unfold inverse. destruct (Qc_eqb (det m) 0) eqn:E; [discriminate|].
  apply Qc_eqb_false in E. intros [= <-].
  rewrite dot_scalar_r, dot_scalar_l, adjugate_r, adjugate_l, scalar_scalar.
  replace (/ det m * det m) with 1 by (field; exact E).
  by rewrite scalar_one.
Qed.

(** Every matrix that has an inverse on the right gets it returned. *)
Lemma inverse_unique m m' : dot m m' = identity → inverse m = Some m'.
Proof.
  intros Hmm'.
  assert (det m ≠ 0) as Hdet.
  { intros Hz. pose proof (det_dot m m') as Hd.
    rewrite Hmm', det_identity, Hz in Hd. revert Hd. by ring_simplify (0 * det m'). }
  destruct (inverse m) as [i|] eqn:Hi; [|by apply inverse_None in Hi].
  apply inverse_Some in Hi as [_ Him].
  f_equal. rewrite <- (dot_identity_r i), <- Hmm', <- dot_assoc, Him.
  apply dot_identity_l.
Qed.

Lemma inverse_singular m : det m = 0 → inverse m = None.
Proof. apply inverse_None. Qed.

(** *** Orthonormal matrices *)

Lemma orthonormal_transpose m : orthonormal m → dot (transpose m) m = identity.
Proof.
  unfold orthonormal. intros Hm%inverse_unique%inverse_Some. exact (proj2 Hm).
Qed.

Lemma orthonormal_dot a b :
  orthonormal a → orthonormal b → orthonormal (dot a b).
Proof.
  unfold orthonormal. intros Ha Hb.
  rewrite transpose_dot, dot_assoc, <- (dot_assoc b), Hb, dot_identity_l.
  exact Ha.
Qed.

Lemma orthonormal_identity : orthonormal identity.
Proof. unfold orthonormal. mat_ring. Qed.

(** *** The matrices of the primitives *)

Lemma translation_opposite t :
  dot (translation_matrix t) (translation_matrix (opposite t)) = identity.
Proof. destruct t. mat_ring. Qed.

Lemma opposite_translation t :
  dot (translation_matrix (opposite t)) (translation_matrix t) = identity.
Proof. destruct t. mat_ring. Qed.

Lemma scale_matrix_unit s : factors s = (1, 1, 1) → scale_matrix s = identity.
Proof. unfold scale_matrix. by intros ->. Qed.

(** A zero factor leaves a zero column in whatever the scale matrix
    multiplies on the right. *)
Lemma det_degenerate m s : degenerate s → det (transpose (dot m (scale_matrix s))) = 0.
Proof.
  unfold degenerate, scale_matrix. destruct (factors s) as [[sx sy] sz].
  mat_destruct m. intros [-> | [-> | ->]]; mat_unfold; ring.
Qed.

Section rotation.
Variables cosd sind : Qc → Qc.

(** Every quaternion gives an orthonormal matrix. *)
Lemma quaternion_orthonormal qx qy qz qw :
  orthonormal (rotation_matrix cosd sind (RotationQuaternion qx qy qz qw)).
Proof.
  unfold rotation_matrix.
  destruct (Qc_eqb _ 0) eqn:E; [apply orthonormal_identity|].
  apply Qc_eqb_false in E. unfold orthonormal. mat_unfold.
  f_equal; f_equal; field; exact E.
Qed.

(** Euler angles give an orthonormal matrix when the cosine and the
    sine of each lie on the unit circle. *)
Lemma euler_orthonormal ax ay az :
  on_circle cosd sind ax → on_circle cosd sind ay →
  on_circle cosd sind az →
  orthonormal (rotation_matrix cosd sind (RotationEulerDegrees ax ay az)).
Proof.
  unfold on_circle. intros Hx Hy Hz. cbn [rotation_matrix].
  apply orthonormal_dot; [apply orthonormal_dot|]; unfold orthonormal; mat_unfold;
    f_equal; f_equal; try ring;
    first [ rewrite <- Hx; ring | rewrite <- Hy; ring | rewrite <- Hz; ring ].
Qed.
End rotation.

(** *** [Physical.update] in exact arithmetic *)

Section update.
Variables cosd sind : Qc → Qc.
Local Abbreviation lib := (numeric cosd sind).
Implicit Types self : Physical Qc mat4.

(** The first three rows of the inverse transpose of a translation are
    those of the identity. *)
Lemma opposite_rows t m j :
  entry (dot (transpose (translation_matrix (opposite t))) m) i0 j = entry m i0 j
  ∧ entry (dot (transpose (translation_matrix (opposite t))) m) i1 j = entry m i1 j
  ∧ entry (dot (transpose (translation_matrix (opposite t))) m) i2 j = entry m i2 j.
Proof.
  destruct t. mat_destruct m. destruct j; mat_unfold; repeat split; ring.
Qed.

(** C9, amended: a scale with a factor 0 makes [update()] raise
    [LinAlgError], and when position x rotation is invertible it does so
    at the inversion for [normal_matrix], after [model_matrix] and
    [view_matrix] have been written.  With all three scale factors 1 and
    an orthonormal rotation matrix, [update()] succeeds and
    [normal_matrix] is the transposed translation by the opposite
    position multiplied by the rotation matrix: its first three rows are
    those of the rotation matrix, and it is the rotation matrix itself
    when the position is the origin. *)
Theorem update_normal_matrix self :
  let T := translation_matrix (pos self) in
  let R := rotation_matrix cosd sind (rot self) in
  (degenerate (scale self) →
     (update (lib := lib) self).1 = Raise LinAlgError ∧
     ∀ v, inverse (dot T R) = Some v →
       (update (lib := lib) self).2 =
         mkPhysical (pos self) (rot self) (scale self)
           (dot (dot T R) (scale_matrix (scale self))) (normal_matrix self) v)
  ∧ (factors (scale self) = (1, 1, 1) → orthonormal R →
     ∃ self', update (lib := lib) self = (Ok (), self') ∧
       normal_matrix self' =
         dot (transpose (translation_matrix (opposite (pos self)))) R ∧
       (∀ j, entry (normal_matrix self') i0 j = entry R i0 j
             ∧ entry (normal_matrix self') i1 j = entry R i1 j
             ∧ entry (normal_matrix self') i2 j = entry R i2 j) ∧
       (pos self = mkTranslation 0 0 0 → normal_matrix self' = R)).
Proof.
  intros T R. rewrite PhysicalFacts.update_eq.
  cbn [np_dot np_T inverse_matrix Translation_to_matrix Rotation_to_matrix
       Scale_to_matrix numeric].
  fold (pos self) (rot self) (scale self). fold T R. split.
  - intros Hs. destruct (inverse (dot T R)) as [v|]; [|done].
    rewrite (inverse_singular _ (det_degenerate _ _ Hs)).
    split; [done|]. by intros ? [= <-].
  - intros Hs HR. rewrite (scale_matrix_unit _ Hs), dot_identity_r.
    pose proof (orthonormal_transpose _ HR) as HR'. unfold orthonormal in HR.
    set (T' := translation_matrix (opposite (pos self))).
    rewrite (inverse_unique (dot T R) (dot (transpose R) T')).
    2: { rewrite dot_assoc, <- (dot_assoc R), HR, dot_identity_l.
         apply translation_opposite. }
    rewrite (inverse_unique (transpose (dot T R)) (dot (transpose T') R)).
    2: { rewrite transpose_dot, dot_assoc, <- (dot_assoc (transpose T)),
           <- transpose_dot.
         unfold T', T. rewrite opposite_translation, transpose_identity,
           dot_identity_l.
         exact HR'. }
    eexists. split; [reflexivity|]. cbn [normal_matrix].
    split; [done|]. split; [apply opposite_rows|].
    intros Hp. unfold T'. rewrite Hp.
    replace (transpose (translation_matrix (opposite (mkTranslation 0 0 0))))
      with identity by mat_ring.
    apply dot_identity_l.
Qed.
End update.
End RationalFacts.

(** * The model run on concrete nodes *)

Module SceneFacts.
Import Physical PhysicalNode Rational Scenes RationalFacts.
Local Open Scope Qc_scope.

(** Equality of two closed values: structurally, and by evaluation at the
    rationals. *)
Ltac closed_eq :=
  lazymatch goal with
  | |- @eq Qc _ _ => apply Qc_is_canon; vm_compute; reflexivity
  | |- _ => first [ reflexivity | f_equal; closed_eq ]
  end.

Ltac closed_neq := apply mat4_eqb_false; vm_compute; reflexivity.

Lemma init_default : Physical.__init__ [0; 0; 0] [0; 0; 0] 1 = Ok at_origin.
Proof. vm_compute. closed_eq. Qed.

Lemma init_quarter_turned :
  Physical.__init__ [0; 0; 0] [Q2Qc 90; 0; 0] 1 = Ok quarter_turned.
Proof. vm_compute. closed_eq. Qed.

Lemma shifted_reached :
  set_pos (Sequence [1; 0; 0]) at_origin = (Ok (), shifted).
Proof. reflexivity. Qed.

Lemma flattened_reached :
  (set_pos (Sequence [1; 0; 0]) ;; set_scale (Number 0)) at_origin
    = (Ok (), flattened).
Proof. reflexivity. Qed.

Lemma family_built : family ∅ = (Ok (0, 1)%nat, scene).
Proof. vm_compute. reflexivity. Qed.

Lemma scene_parent : scene !! 0%nat = Some the_parent.
Proof. vm_compute. closed_eq. Qed.

Lemma scene_child : scene !! 1%nat = Some the_child.
Proof. vm_compute. closed_eq. Qed.

Lemma update_child_again :
  (PhysicalNode.update 1 scene).1 = Ok ()
  ∧ (PhysicalNode.update 1 scene).2 !! 1%nat = Some the_child
  ∧ (PhysicalNode.update 1 scene).2 !! 0%nat = Some the_parent.
Proof. repeat split; vm_compute; closed_eq. Qed.

(** C1, at a child of a parent moved to (1, 0, 0): after [update()] the
    child's [view_matrix_global] is the parent's [normal_matrix_global]
    multiplied by the child's [normal_matrix], which is not the inverse of
    the child's [model_matrix_global]. *)
Theorem view_matrix_global_child :
  (PhysicalNode.update 1 scene).1 = Ok ()
  ∧ (PhysicalNode.update 1 scene).2 !! 1%nat = Some the_child
  ∧ parent the_child = Some 0%nat
  ∧ view_matrix_global the_child = shift_normal
  ∧ view_matrix_global the_child
      = np_dot (normal_matrix_global the_parent)
               (normal_matrix (physical the_child))
  ∧ inverse_matrix (model_matrix_global the_child) = Some shift_back
  ∧ shift_normal ≠ shift_back.
Proof.
  split; [apply update_child_again|]. split; [apply update_child_again|].
  split; [reflexivity|]. split; [reflexivity|].
  split; [apply mat4_eqb_true; vm_compute; reflexivity|].
  split; [|closed_neq].
  apply inverse_unique. apply mat4_eqb_true. vm_compute. reflexivity.
Qed.

(** C6, refuted at [flattened]: [update()] raises, and by then it has
    overwritten [model_matrix] and [view_matrix]. *)
Lemma update_flattened_not_atomic :
  (Physical.update flattened).1 = Raise LinAlgError
  ∧ model_matrix (Physical.update flattened).2 ≠ model_matrix flattened
  ∧ view_matrix (Physical.update flattened).2 ≠ view_matrix flattened
  ∧ normal_matrix (Physical.update flattened).2 = normal_matrix flattened.
Proof.
  split; [vm_compute; reflexivity|]. split; [closed_neq|].
  split; [closed_neq|]. apply mat4_eqb_true. vm_compute. reflexivity.
Qed.

(** C8, refuted at the rotation (0, 0, 0, 1): the constructor does not
    return a node whose [rot] is the quaternion of these four values. *)
Lemma init_four_values_no_quaternion :
  ¬ ∃ self : Physical Qc mat4,
      Physical.__init__ [0; 0; 0] [0; 0; 0; 1] 1 = Ok self
      ∧ rot self = RotationQuaternion 0 0 0 1.
Proof. intros (self & Hinit & _). discriminate Hinit. Qed.

(** C9, refuted at [shifted]: the scale is 1, [update()] succeeds, and
    [normal_matrix] is not the rotation matrix. *)
Lemma update_shifted_normal_matrix :
  scale shifted = ScaleUniform 1
  ∧ (Physical.update shifted).1 = Ok ()
  ∧ normal_matrix (Physical.update shifted).2 = shift_normal
  ∧ Rotation_to_matrix (rot shifted) = identity
  ∧ normal_matrix (Physical.update shifted).2
      ≠ Rotation_to_matrix (rot shifted).
Proof.
  split; [reflexivity|]. split; [vm_compute; reflexivity|].
  split; [apply mat4_eqb_true; vm_compute; reflexivity|].
  split; [apply mat4_eqb_true; vm_compute; reflexivity|]. closed_neq.
Qed.

(** *** The theorems above, applied *)

Lemma update_view_matrix_witness :
  Physical.update shifted = (Ok (), (Physical.update shifted).2)
  ∧ inverse_matrix (np_dot (Translation_to_matrix (pos shifted))
                           (Rotation_to_matrix (rot shifted)))
      = Some (view_matrix (Physical.update shifted).2).
Proof.
  assert (Physical.update shifted = (Ok (), (Physical.update shifted).2)) as H.
  { vm_compute. reflexivity. }
  split; [exact H|].
  exact (proj1 (PhysicalFacts.update_view_matrix shifted _ H)).
Defined.

Lemma update_global_parented_witness :
  ∃ n', (PhysicalNode.update 1 scene).2 !! 1%nat = Some n'
    ∧ model_matrix_global n'
        = np_dot (model_matrix_global the_parent) (model_matrix (physical n'))
    ∧ normal_matrix_global n'
        = np_dot (normal_matrix_global the_parent) (normal_matrix (physical n'))
    ∧ (0%nat ≠ 1%nat → (PhysicalNode.update 1 scene).2 !! 0%nat = Some the_parent).
Proof.
  apply (PhysicalNodeFacts.update_global_parented scene 1 the_child 0 the_parent).
  - vm_compute. closed_eq.
  - reflexivity.
  - vm_compute. closed_eq.
  - vm_compute. reflexivity.
Defined.

Lemma update_global_root_witness :
  ∃ n', (PhysicalNode.update 0 scene).2 !! 0%nat = Some n'
    ∧ model_matrix_global n' = model_matrix (physical n')
    ∧ normal_matrix_global n' = normal_matrix (physical n')
    ∧ view_matrix_global n' = view_matrix (physical n').
Proof.
  apply (PhysicalNodeFacts.update_global_root scene 0 the_parent).
  - vm_compute. closed_eq.
  - reflexivity.
  - vm_compute. reflexivity.
Defined.

Lemma init_rot_round_trip_witness :
  (∃ x y z, [Q2Qc 90; 0; 0] = [x; y; z]
     ∧ rot quarter_turned = RotationEulerDegrees x y z)
  ∧ ∀ x y z w,
      set_rot (Sequence [x; y; z; w]) quarter_turned
        = (Ok (), mkPhysical (pos quarter_turned) (RotationQuaternion x y z w)
                    (scale quarter_turned) (model_matrix quarter_turned)
                    (normal_matrix quarter_turned) (view_matrix quarter_turned)).
Proof.
  apply (PhysicalFacts.init_rot_round_trip [0; 0; 0] [Q2Qc 90; 0; 0] 1).
  vm_compute. closed_eq.
Defined.

Lemma update_normal_matrix_witness :
  (Physical.update flattened).1 = Raise LinAlgError
  ∧ ∃ self', Physical.update shifted = (Ok (), self')
      ∧ ∀ j, entry (normal_matrix self') i0 j
               = entry (rotation_matrix cosd sind (rot shifted)) i0 j.
Proof.
  split.
  - apply (update_normal_matrix cosd sind flattened). vm_compute. left. closed_eq.
  - destruct (proj2 (update_normal_matrix cosd sind shifted))
      as (self' & Hu & _ & Hrows & _).
    + reflexivity.
    + apply mat4_eqb_true. vm_compute. reflexivity.
    + exists self'. split; [exact Hu|]. intros j. apply Hrows.
Defined.

Lemma update_idempotent_witness :
  ∃ h3 n3, PhysicalNode.update 1 (PhysicalNode.update 1 scene).2 = (Ok (), h3)
    ∧ h3 !! 1%nat = Some n3 ∧ matrices n3 = matrices the_child.
Proof.
  apply (PhysicalNodeFacts.update_idempotent scene 1
           (PhysicalNode.update 1 scene).2 the_child _ the_child).
  - vm_compute. reflexivity.
  - vm_compute. closed_eq.
  - vm_compute. closed_eq.
  - reflexivity.
  - reflexivity.
  - reflexivity.
  - reflexivity.
  - intros p [= <-]. split; [lia|]. exists the_parent, the_parent.
    repeat split; vm_compute; closed_eq.
Defined.
End SceneFacts.

(** * More of [Physical], for every implementation of the libraries *)

Module PhysicalMore.
Import Physical.
Section facts.
Context {F M : Type} {lib : Numeric F M}.
Implicit Types self other : Physical F M.

(** X1: [update()] never changes the position, the rotation or the scale
    of the node, whether it returns or raises. *)
Theorem update_keeps_primitives self :
  pos (update self).2 = pos self ∧ rot (update self).2 = rot self
  ∧ scale (update self).2 = scale self.
Proof.
  unfold pos, rot, scale. rewrite PhysicalFacts.update_eq. cbv zeta.
  destruct (inverse_matrix _) as [v|]; [|done].
  by destruct (inverse_matrix _).
Qed.

(** X2: after a successful [update()], [model_matrix] is position x
    rotation x scale, in this order, and [normal_matrix] is the inverse of
    the transpose of that very [model_matrix]. *)
Theorem update_model_normal self self' :
  update self = (Ok (), self') →
  model_matrix self' =
    np_dot (np_dot (Translation_to_matrix (pos self'))
                   (Rotation_to_matrix (rot self')))
           (Scale_to_matrix (scale self'))
  ∧ inverse_matrix (np_T (model_matrix self')) = Some (normal_matrix self').
Proof.
  intros (v & n & Hv & Hn & ->)%PhysicalFacts.update_ok. cbn. done.
Qed.

(** X3: what [update()] does is decided by the position, the rotation and
    the scale alone: two nodes that agree on them get the same outcome,
    and after a successful [update()] they are equal, whatever their
    matrices held before. *)
Theorem update_forgets_matrices self other :
  pos self = pos other → rot self = rot other → scale self = scale other →
  (update self).1 = (update other).1
  ∧ ((update self).1 = Ok () → (update self).2 = (update other).2).
Proof.
  unfold pos, rot, scale. intros Hp Hr Hs.
  rewrite !PhysicalFacts.update_eq, Hp, Hr, Hs. cbv zeta.
  destruct (inverse_matrix _); [destruct (inverse_matrix _)|]; cbn; done.
Qed.

(** X4: assignments take effect at the next [update()], and together they
    replace the node: after assigning a position, a rotation and a scale
    and calling [update()], the node consists of the three assigned values
    and the three matrices computed from them, and nothing of the node it
    was before. *)
Theorem assign_all_then_update (t : Translation F) (r : RotationBase F)
    (s : Scale F) self self' :
  (set_pos (Instance_of t) ;; set_rot (Instance_of r) ;;
   set_scale (Instance_of s) ;; update) self = (Ok (), self') →
  ∃ v n,
    inverse_matrix (np_dot (Translation_to_matrix t) (Rotation_to_matrix r))
      = Some v ∧
    inverse_matrix
      (np_T (np_dot (np_dot (Translation_to_matrix t) (Rotation_to_matrix r))
                    (Scale_to_matrix s))) = Some n ∧
    self' = mkPhysical t r s
              (np_dot (np_dot (Translation_to_matrix t) (Rotation_to_matrix r))
                      (Scale_to_matrix s)) n v.
Proof.
  cbv [set_pos set_rot set_scale store_pos store_rot store_scale mbind cmd_bind].
  intros (v & n & Hv & Hn & ->)%PhysicalFacts.update_ok. cbn in *. eauto.
Qed.

(** X5: a constructed node is consistent from the start: it was given
    three position values and three rotation values, it holds them and the
    uniform scale it was given, and its matrices are the ones [update()]
    computes from them; none of the zero arrays of the constructor is
    left. *)
Theorem init_consistent (position rotation : list F) (s : F) self :
  __init__ position rotation s = Ok self →
  ∃ px py pz rx ry rz,
    position = [px; py; pz] ∧ rotation = [rx; ry; rz] ∧
    pos self = mkTranslation px py pz ∧
    rot self = RotationEulerDegrees rx ry rz ∧
    scale self = ScaleUniform s ∧
    update self = (Ok (), self).
Proof.
  intros (rx & ry & rz & p & -> & Hp & Hu)%PhysicalFacts.init_inv.
  destruct position as [|px [|py [|pz [|? ?]]]]; try discriminate.
  injection Hp as <-.
  exists px, py, pz, rx, ry, rz.
  pose proof Hu as (v & n & Hv & Hn & ->)%PhysicalFacts.update_ok. cbn in *.
  repeat split; try done.
  rewrite PhysicalFacts.update_eq. cbn. by rewrite Hv, Hn.
Qed.

End facts.
End PhysicalMore.

(** * More of [Physical.update] in exact arithmetic *)

Module RationalMoreFacts.
Import Physical Rational RationalMore RationalFacts.
Local Open Scope Qc_scope.

Lemma det_translation t : det (translation_matrix t) = 1.
Proof. destruct t. mat_unfold. ring. Qed.

Lemma det_scale s :
  det (scale_matrix s) = (factors s).1.1 * (factors s).1.2 * (factors s).2.
Proof.
  unfold scale_matrix. destruct (factors s) as [[sx sy] sz]. mat_unfold.
  cbn. ring.
Qed.

Lemma degenerate_product s :
  degenerate s ↔ (factors s).1.1 * (factors s).1.2 * (factors s).2 = 0.
Proof.
  unfold degenerate. destruct (factors s) as [[sx sy] sz]. cbn. split.
  - intros [-> | [-> | ->]]; ring.
  - intros [[?|?]%Qcmult_integral|?]%Qcmult_integral; auto.
Qed.

Lemma scale_reciprocal s :
  ¬ degenerate s → dot (scale_matrix s) (scale_matrix (reciprocal s)) = identity.
Proof.
  unfold degenerate, reciprocal, scale_matrix.
  destruct (factors s) as [[sx sy] sz]. cbn [factors]. intros Hs.
  mat_unfold. f_equal; f_equal; try ring; field; tauto.
Qed.

Lemma scale_symmetric s : transpose (scale_matrix s) = scale_matrix s.
Proof. unfold scale_matrix. destruct (factors s) as [[sx sy] sz]. reflexivity. Qed.

Section update.
Variables cosd sind : Qc → Qc.
Local Abbreviation lib := (numeric cosd sind).
Implicit Types self : Physical Qc mat4.

(** A scale factor 0 makes [update] raise. *)
Lemma update_degenerate self :
  degenerate (scale self) → (update (lib := lib) self).1 ≠ Ok ().
Proof.
  intros Hs. rewrite PhysicalFacts.update_eq.
  cbn [np_dot np_T inverse_matrix Translation_to_matrix Rotation_to_matrix
       Scale_to_matrix numeric].
  fold (scale self). destruct (inverse _) as [v|]; [|done].
  by rewrite (inverse_singular _ (det_degenerate _ _ Hs)).
Qed.



(** X8: a node cannot be constructed with scale 0: the constructor
    raises, and with three position values and three rotation values what
    it raises is [LinAlgError]. *)
Theorem init_scale_zero (position rotation : list Qc) :
  (∃ e, __init__ (lib := lib) position rotation 0 = Raise e)
  ∧ (length position = 3%nat → length rotation = 3%nat →
     __init__ (lib := lib) position rotation 0 = Raise LinAlgError).
Proof.
  assert (∀ self, _scale self = ScaleUniform 0 →
            ∃ self', update (lib := lib) self = (Raise LinAlgError, self')) as Hup.
  { intros self Hs.
    destruct (update (lib := lib) self) as [[[]|e] self'] eqn:Hu.
    - exfalso. apply (update_degenerate self).
      + unfold scale. rewrite Hs. by left.
      + by rewrite Hu.
    - apply PhysicalFacts.update_raises in Hu as Heq. subst e. eauto. }
  unfold __init__, init_fields.
  destruct (new_RotationEulerDegrees rotation) as [r|e] eqn:Hr.
  2: { split; [eauto|]. intros _ Hl. exfalso.
       destruct rotation as [|? [|? [|? [|? ?]]]]; done. }
  destruct (new_Translation position) as [p|e] eqn:Hp.
  2: { split; [eauto|]. intros Hl _. exfalso.
       destruct position as [|? [|? [|? [|? ?]]]]; done. }
  match goal with
  | |- context [update ?s] => destruct (Hup s) as [self' ->]; [done|]
  end.
  eauto.
Qed.
End update.
End RationalMoreFacts.

(** * More of [PhysicalNode], for every implementation of the libraries *)

Module PhysicalNodeMore.
Import Physical PhysicalNode.
Section facts.
Context {F M : Type} {lib : Numeric F M}.
Implicit Types (h : gmap ref (PhysicalNode F M)) (n par : PhysicalNode F M).
Implicit Types (self p r c : ref) (q : Physical F M).

Ltac run_store :=
  cbv [update inherited load put_node store_model_matrix_global
       store_normal_matrix_global store_view_matrix_global
       mbind cmd_bind mret cmd_ret get put raise call];
  cbn [physical parent model_matrix_global normal_matrix_global
       view_matrix_global].

Ltac step_store :=
  repeat first
    [ rewrite lookup_insert_eq
    | rewrite insert_insert_eq
    | progress cbn [physical parent model_matrix_global
                    normal_matrix_global view_matrix_global] ].

(** A parent link to no object: the first read of the parent raises. *)
Lemma update_dangling h self n q p :
  h !! self = Some n → parent n = Some p → h !! p = None →
  Physical.update (physical n) = (Ok (), q) →
  update self h =
    (Raise ReferenceError,
     <[self := mkPhysicalNode q (Some p) (model_matrix_global n)
                 (normal_matrix_global n) (view_matrix_global n)]> h).
Proof.
  intros Hn Hp Hpar Hu. run_store. rewrite Hn, Hu. step_store. rewrite Hp.
  rewrite lookup_insert_ne by congruence. by rewrite Hpar.
Qed.

(** Whatever happens, [update] leaves at [self] an object with the parent
    link it had, and leaves every other reference alone. *)
Lemma update_shape h self n :
  h !! self = Some n →
  ∃ n', (update self h).2 = <[self := n']> h ∧ parent n' = parent n
    ∧ ((update self h).1 ≠ Ok () →
       model_matrix_global n' = model_matrix_global n
       ∧ normal_matrix_global n' = normal_matrix_global n
       ∧ view_matrix_global n' = view_matrix_global n).
Proof.
  intros Hn.
  destruct (Physical.update (physical n)) as [[[]|e] q] eqn:Hu.
  2: { rewrite (PhysicalNodeFacts.update_raise _ _ _ _ _ Hn Hu).
       eexists. split; [reflexivity|]. done. }
  destruct (parent n) as [p|] eqn:Hp.
  - destruct (h !! p) as [par|] eqn:Hpar.
    + destruct (PhysicalNodeFacts.update_child _ _ _ _ _ _ Hn Hp Hpar Hu)
        as (v & -> & _).
      eexists. split; [reflexivity|]. done.
    + rewrite (update_dangling _ _ _ _ _ Hn Hp Hpar Hu).
      eexists. split; [reflexivity|]. done.
  - rewrite (PhysicalNodeFacts.update_root _ _ _ _ Hn Hp Hu).
    eexists. split; [reflexivity|]. done.
Qed.

(** What is read elsewhere after [update] is what was there before. *)
Lemma update_elsewhere h self r o h' :
  update self h = (o, h') → r ≠ self → h' !! r = h !! r.
Proof.
  intros Hu Hne. destruct (h !! self) as [n|] eqn:Hn.
  - destruct (update_shape h self n Hn) as (n' & Hh & _).
    rewrite Hu in Hh. cbn in Hh. subst h'. by rewrite lookup_insert_ne.
  - revert Hu. run_store. rewrite Hn. by intros [= _ <-].
Qed.

(** X9: [update()] of a node writes to that node only: every other
    object of the store, its parent included, is afterwards exactly as it
    was, whether [update()] returns or raises. *)
Theorem update_touches_only_self h self r :
  r ≠ self → (update self h).2 !! r = h !! r.
Proof.
  intros Hne. destruct (h !! self) as [n|] eqn:Hn.
  - destruct (update_shape h self n Hn) as (n' & -> & _).
    by rewrite lookup_insert_ne.
  - run_store. by rewrite Hn.
Qed.

(** X10: the global matrices are all or nothing: when [update()] of a
    node raises, its three global matrices and its parent link are
    exactly as they were, although its local matrices may have been
    overwritten. *)
Theorem update_raise_keeps_globals h self n e h' :
  h !! self = Some n → update self h = (Raise e, h') →
  ∃ n', h' !! self = Some n' ∧ parent n' = parent n
    ∧ model_matrix_global n' = model_matrix_global n
    ∧ normal_matrix_global n' = normal_matrix_global n
    ∧ view_matrix_global n' = view_matrix_global n.
Proof.
  intros Hn Hu. destruct (update_shape h self n Hn) as (n' & Hh & Hp & Hg).
  rewrite Hu in Hh, Hg. cbn in Hh, Hg. subst h'.
  exists n'. split; [apply lookup_insert_eq|]. split; [done|]. by apply Hg.
Qed.

(** X11: parent first.  When a node without a parent and then a child of
    it are updated, in this order, the child's global model and normal
    matrices are the parent's fresh local ones multiplied by its own. *)
Theorem update_parent_then_child h r c nr nc h' :
  h !! r = Some nr → parent nr = None →
  h !! c = Some nc → parent nc = Some r →
  (update r ;; update c) h = (Ok (), h') →
  ∃ nr' nc', h' !! r = Some nr' ∧ h' !! c = Some nc'
    ∧ model_matrix_global nc' =
        np_dot (model_matrix (physical nr')) (model_matrix (physical nc'))
    ∧ normal_matrix_global nc' =
        np_dot (normal_matrix (physical nr')) (normal_matrix (physical nc')).
Proof.
  intros Hr Hpr Hc Hpc. assert (r ≠ c) as Hne by (intros ->; congruence).
  unfold mbind at 1, cmd_bind at 1.
  destruct (update r h) as [[[]|e] h1] eqn:H1; [|discriminate].
  intros H2.
  destruct (PhysicalNodeFacts.update_global_root _ _ _ _ Hr Hpr H1)
    as (nr' & Hr' & Hg & Hn & _).
  assert (h1 !! c = Some nc) as Hc1.
  { by rewrite (update_elsewhere _ _ c _ _ H1). }
  destruct (PhysicalNodeFacts.update_global_parented _ _ _ _ _ _ Hc1 Hpc Hr' H2)
    as (nc' & Hc' & Hmg & Hng & Hkeep).
  exists nr', nc'. rewrite Hkeep by done. rewrite <- Hg, <- Hn. done.
Qed.

(** X12: child first.  When the child is updated before its parent, its
    global model matrix is composed with the global model matrix the
    parent had before, not with the one the parent has afterwards. *)
Theorem update_child_then_parent h r c nr nc h' :
  h !! r = Some nr → parent nr = None →
  h !! c = Some nc → parent nc = Some r →
  (update c ;; update r) h = (Ok (), h') →
  ∃ nr' nc', h' !! r = Some nr' ∧ h' !! c = Some nc'
    ∧ model_matrix_global nc' =
        np_dot (model_matrix_global nr) (model_matrix (physical nc'))
    ∧ model_matrix_global nr' = model_matrix (physical nr').
Proof.
  intros Hr Hpr Hc Hpc. assert (r ≠ c) as Hne by (intros ->; congruence).
  unfold mbind at 1, cmd_bind at 1.
  destruct (update c h) as [[[]|e] h1] eqn:H1; [|discriminate].
  intros H2.
  destruct (PhysicalNodeFacts.update_global_parented _ _ _ _ _ _ Hc Hpc Hr H1)
    as (nc' & Hc' & Hmg & _ & Hkeep).
  specialize (Hkeep Hne).
  destruct (PhysicalNodeFacts.update_global_root _ _ _ _ Hkeep Hpr H2)
    as (nr' & Hr' & Hg & _).
  exists nr', nc'. split; [done|]. split; [|done].
  by rewrite (update_elsewhere _ _ c _ _ H2).
Qed.

End facts.
End PhysicalNodeMore.

(** * [position_global] *)

Module PositionFacts.
Import Physical PhysicalNode Rational RationalMore RationalFacts.
Local Open Scope Qc_scope.

Section position.
Variables cosd sind : Qc → Qc.
Local Abbreviation lib := (numeric cosd sind).
Implicit Types (h : gmap ref (PhysicalNode Qc mat4)) (n par : PhysicalNode Qc mat4).

(** The last column of position x rotation x scale is the position. *)
Lemma model_last_column (p : Translation Qc) (r : RotationBase Qc) (s : Scale Qc) :
  let m := dot (dot (translation_matrix p) (rotation_matrix cosd sind r))
               (scale_matrix s) in
  entry m i0 i3 = x p ∧ entry m i1 i3 = y p ∧ entry m i2 i3 = z p
  ∧ entry m i3 i3 = 1.
Proof.
  destruct p as [px py pz]. unfold scale_matrix.
  destruct (factors s) as [[sx sy] sz].
  destruct r as [ax ay az|qx qy qz qw]; cbn [rotation_matrix].
  - mat_unfold. repeat split; ring.
  - destruct (Qc_eqb _ 0); mat_unfold; repeat split; ring.
Qed.

Lemma update_last_column (self self' : Physical Qc mat4) :
  Physical.update (lib := lib) self = (Ok (), self') →
  entry (model_matrix self') i0 i3 = x (pos self')
  ∧ entry (model_matrix self') i1 i3 = y (pos self')
  ∧ entry (model_matrix self') i2 i3 = z (pos self')
  ∧ entry (model_matrix self') i3 i3 = 1.
Proof.
  intros (v & n & _ & _ & ->)%PhysicalFacts.update_ok. apply model_last_column.
Qed.

(** X14: for a node without a parent, after [update()] [position_global]
    is the node's own position, whatever its rotation and its scale. *)
Theorem position_global_root h self n h' :
  h !! self = Some n → parent n = None →
  update (lib := lib) self h = (Ok (), h') →
  ∃ n', h' !! self = Some n'
    ∧ position_global n' =
        (x (pos (physical n')), y (pos (physical n')), z (pos (physical n'))).
Proof.
  intros Hn Hp Hu.
  destruct (PhysicalNodeFacts.update_ok_inv _ _ _ Hu) as (n0 & q & Hn0 & Hq & Hh').
  assert (n0 = n) as -> by congruence. rewrite Hp in Hh'. subst h'.
  eexists. split; [apply lookup_insert_eq|].
  destruct (update_last_column _ _ Hq) as (H0 & H1 & H2 & _).
  unfold position_global. cbn [model_matrix_global physical].
  by rewrite H0, H1, H2.
Qed.

(** The last column of a product with a model matrix. *)
Lemma composed_position (g : mat4) (self q : Physical Qc mat4) :
  Physical.update (lib := lib) self = (Ok (), q) →
  (entry (dot g (model_matrix q)) i0 i3, entry (dot g (model_matrix q)) i1 i3,
   entry (dot g (model_matrix q)) i2 i3) = moved g (pos q).
Proof.
  intros Hq. destruct (update_last_column _ _ Hq) as (H0 & H1 & H2 & H3).
  unfold moved. set (m := model_matrix q) in *.
  assert (∀ i, entry (dot g m) i i3 =
               entry g i i0 * entry m i0 i3 + entry g i i1 * entry m i1 i3
               + entry g i i2 * entry m i2 i3 + entry g i i3 * entry m i3 i3) as Hd.
  { intros []; reflexivity. }
  rewrite !Hd, H0, H1, H2, H3. f_equal; [f_equal|]; ring.
Qed.

(** X15: for a node with a parent, after [update()] [position_global] is
    the node's own position moved by the parent's global model matrix,
    whatever the node's rotation and scale. *)
Theorem position_global_child h self n p par h' :
  h !! self = Some n → parent n = Some p → h !! p = Some par →
  update (lib := lib) self h = (Ok (), h') →
  ∃ n', h' !! self = Some n'
    ∧ position_global n' = moved (model_matrix_global par) (pos (physical n')).
Proof.
  intros Hn Hp Hpar Hu.
  destruct (PhysicalNodeFacts.update_ok_inv _ _ _ Hu) as (n0 & q & Hn0 & Hq & Hh').
  assert (n0 = n) as -> by congruence. rewrite Hp in Hh'.
  destruct Hh' as (par0 & v & Hpar0 & -> & _).
  assert (par0 = par) as -> by congruence.
  eexists. split; [apply lookup_insert_eq|].
  exact (composed_position _ _ _ Hq).
Qed.

(** X16: positions add up.  Let a node without a parent have an identity
    rotation matrix and scale factors 1, and let a child of it have any
    rotation and scale.  After [update()] of the parent and then of the
    child, the child's [position_global] is the sum of the two
    positions. *)
Theorem position_global_adds h r c nr nc h' :
  h !! r = Some nr → parent nr = None →
  h !! c = Some nc → parent nc = Some r →
  rotation_matrix cosd sind (rot (physical nr)) = identity →
  factors (scale (physical nr)) = (1, 1, 1) →
  (update (lib := lib) r ;; update (lib := lib) c) h = (Ok (), h') →
  ∃ nc', h' !! c = Some nc'
    ∧ position_global nc' =
        (x (pos (physical nr)) + x (pos (physical nc)),
         y (pos (physical nr)) + y (pos (physical nc)),
         z (pos (physical nr)) + z (pos (physical nc))).
Proof.
  intros Hr Hpr Hc Hpc Hrot Hscale. assert (r ≠ c) as Hne by (intros ->; congruence).
  unfold mbind at 1, cmd_bind at 1.
  destruct (update r h) as [[[]|e] h1] eqn:H1; [|discriminate].
  intros H2.
  destruct (PhysicalNodeFacts.update_ok_inv _ _ _ H1) as (n0 & q & Hn0 & Hq & Hh1).
  assert (n0 = nr) as -> by congruence. rewrite Hpr in Hh1.
  apply PhysicalFacts.update_ok in Hq as (v & n & _ & _ & ->). cbn in Hh1.
  unfold rot, scale in *.
  rewrite Hrot, (scale_matrix_unit _ Hscale), !dot_identity_r in Hh1.
  destruct (PhysicalNodeFacts.update_ok_inv _ _ _ H2) as (n1 & q1 & Hn1 & Hq1 & Hh').
  assert (n1 = nc) as ->.
  { subst h1. rewrite lookup_insert_ne in Hn1 by done. congruence. }
  rewrite Hpc in Hh'. destruct Hh' as (par & w & Hpar & -> & _).
  subst h1. rewrite lookup_insert_eq in Hpar. injection Hpar as <-.
  eexists. split; [apply lookup_insert_eq|].
  unfold position_global. cbn [model_matrix_global physical np_dot numeric].
  rewrite (composed_position _ _ _ Hq1).
  pose proof (PhysicalFacts.update_primitives (lib := lib) (physical nc))
    as (Hp & _).
  rewrite Hq1 in Hp. unfold pos. cbn in Hp. rewrite Hp.
  unfold moved. destruct (_pos (physical nr)), (_pos (physical nc)).
  cbn. f_equal; [f_equal|]; ring.
Qed.
End position.
End PositionFacts.

(** * [graphics/core/utils.py] *)

Module utilsFacts.
Import utils.
Local Open Scope Z_scope.

Lemma bound_framebuffer_snoc t c :
  bound_framebuffer (t ++ [c]) =
    match c with glBindFramebufferEXT _ f => f | _ => bound_framebuffer t end.
Proof. unfold bound_framebuffer. by rewrite foldl_app. Qed.

Lemma viewport_snoc t c :
  viewport (t ++ [c]) =
    match c with glViewport x y w h => Some (x, y, w, h) | _ => viewport t end.
Proof. unfold viewport. by rewrite foldl_app. Qed.

(** X17: [create_opengl_object].  With [n] at most 1 (the default, and
    also 0 and negative numbers) it returns the bare value of the handle;
    with [n] greater than 1 it returns a list of [n] values that are
    consecutive, start at the value of the handle, and are pairwise
    distinct.  It makes no call but the one of [gl_gen_function]. *)
Theorem create_opengl_object_handles (gl_gen_function : Z → Z → io Z) n t v t' :
  gl_gen_function n 1 t = (Returns v, t') →
  (n ≤ 1 → create_opengl_object gl_gen_function n t = (Returns (Handle v), t'))
  ∧ (1 < n → ∃ l,
       create_opengl_object gl_gen_function n t = (Returns (Handles l), t')
       ∧ length l = Z.to_nat n
       ∧ (∀ i : nat, (i < Z.to_nat n)%nat → l !! i = Some (v + Z.of_nat i))
       ∧ NoDup l).
Proof.
  intros Hgen. unfold create_opengl_object, mbind, io_bind. rewrite Hgen.
  split; intros Hn.
  - destruct (decide (n > 1)); [lia|done].
  - destruct (decide (n > 1)); [|lia].
    eexists. split; [reflexivity|]. split; [|split].
    + by rewrite length_fmap, length_seqZ.
    + intros i Hi. rewrite list_lookup_fmap, lookup_seqZ_lt by lia.
      cbn. f_equal; lia.
    + apply NoDup_fmap_2; [|apply NoDup_seqZ]. intros a b. lia.
Qed.

(** A loop of calls makes the calls, in the order of the loop. *)
Lemma for_each_calls {A} (xs : list A) (f : A → gl_call) t :
  for_each xs (λ x t0, (Returns (), t0 ++ [f x])) t
    = (Returns (), t ++ (f <$> xs)).
Proof.
  revert t. induction xs as [|x xs IH]; intros t; cbn.
  - by rewrite app_nil_r.
  - unfold mbind, io_bind. rewrite IH, <- app_assoc. done.
Qed.

Section gl.
Context {GL : constants}.
Variable generated : list gl_call → gen_function → Z → Z → Z.
Variable status : list gl_call → Z.

Ltac run_io :=
  cbv [create_fbo create_opengl_object gl_gen check_status name gl throw
       mbind io_bind mret io_ret __enter__ __exit__ on_exit
       with_render_to_fbo current_binding];
  cbn [decide_rel].

Ltac io_cases :=
  repeat first
    [ rewrite for_each_calls
    | match goal with
      | |- context [decide ?P] => destruct (decide P)
      | |- context [if ?b then _ else _] => is_var b; destruct b
      end ].

(** X18: [create_fbo] without color and without depth fails its
    assertion before it makes any GL call; with one of them it never
    raises [AssertionError]. *)
Theorem create_fbo_assertion texture_type width height slot color depth gray t :
  (color = false → depth = false →
   create_fbo generated status texture_type width height slot color depth gray t
     = (Raises AssertionError, t))
  ∧ (color || depth = true →
     (create_fbo generated status texture_type width height slot color depth
        gray t).1 ≠ Raises AssertionError).
Proof.
  split.
  - intros -> ->. reflexivity.
  - intros Hcd. run_io.
    destruct (decide (1 > 1)) as [?|_]; [lia|].
    destruct color, depth; try discriminate Hcd; cbn [orb andb negb];
      io_cases; cbn; discriminate.
Qed.

Lemma six_faces : seqZ 0 6 = [0; 1; 2; 3; 4; 5].
Proof. reflexivity. Qed.

(** [create_fbo] run through, one case per path. *)
Ltac fbo_paths color depth :=
  run_io; destruct (decide (1 > 1)) as [?|_]; [lia|];
  destruct color, depth; cbn [orb andb negb]; io_cases; cbn [fst snd].

(** The names and the status the driver gave, whatever they were. *)
Ltac forget_driver :=
  repeat match goal with
         | |- context [generated ?a ?b ?c ?d] =>
             let x := fresh "name" in
             set (x := generated a b c d) in *; clearbody x
         | |- context [status ?a] =>
             let x := fresh "st" in set (x := status a) in *; clearbody x
         end.

(** The calls a program made, from the calls before and the calls after. *)
Ltac made_calls :=
  rewrite ?six_faces; cbn [fmap list_fmap];
  rewrite <- ?app_assoc; cbn [app];
  rewrite ?drop_app_length.

(** X19: when [create_fbo] returns, the FBO it returns has the size and
    the texture slot it was given; its texture was bound to the given
    texture type; and of the framebuffer bindings made, the first bound
    the FBO and the second and last bound 0, so that the window is the
    render target again. *)
Theorem create_fbo_returns texture_type width height slot color depth gray t
    f t' :
  create_fbo generated status texture_type width height slot color depth gray t
    = (Returns f, t') →
  size f = (width, height) ∧ texture_slot f = slot
  ∧ glBindTexture texture_type (texture f) ∈ drop (length t) t'
  ∧ filter binds_framebuffer (drop (length t) t') =
      [glBindFramebufferEXT GL_FRAMEBUFFER_EXT (id f);
       glBindFramebufferEXT GL_FRAMEBUFFER_EXT 0]
  ∧ bound_framebuffer t' = 0.
Proof.
  fbo_paths color depth; forget_driver; intros [= <- <-];
    cbn [size texture_slot texture id];
    (split; [done|]); (split; [done|]);
    rewrite bound_framebuffer_snoc; (split; [|split; [|done]]);
    made_calls; try reflexivity.
  all: rewrite !elem_of_cons; auto 10.
Qed.

(** X20: when [create_fbo] raises after its assertion, it raises
    [BufferError] with a status that is not [GL_FRAMEBUFFER_COMPLETE_EXT];
    the status check was its last call, and the one framebuffer binding
    it made, that of the new FBO, is still in place: nothing binds the
    window again. *)
Theorem create_fbo_raises texture_type width height slot color depth gray t
    e t' :
  color || depth = true →
  create_fbo generated status texture_type width height slot color depth gray t
    = (Raises e, t') →
  ∃ st f, e = BufferError st ∧ st ≠ GL_FRAMEBUFFER_COMPLETE_EXT
    ∧ last t' = Some (glCheckFramebufferStatusEXT GL_FRAMEBUFFER_EXT)
    ∧ filter binds_framebuffer (drop (length t) t') =
        [glBindFramebufferEXT GL_FRAMEBUFFER_EXT f]
    ∧ bound_framebuffer t' = f.
Proof.
  fbo_paths color depth; forget_driver; intros Hcd; try discriminate Hcd;
    intros [= <- <-]; eexists _, _; (split; [reflexivity|]);
    (split; [eassumption|]); (split; [apply last_snoc|]);
    (split; [made_calls; reflexivity|]);
    repeat (rewrite bound_framebuffer_snoc; cbv beta iota); reflexivity.
Qed.


Ltac prove_member :=
  rewrite !elem_of_cons; repeat first [left; reflexivity | right].

Ltac refute_member H :=
  rewrite ?elem_of_cons, ?elem_of_nil in H; intuition discriminate.

(** X22: what [create_fbo] does with the buffers.  It switches the draw
    and the read buffer off exactly when there is no color; it generates
    a renderbuffer, and gives it depth storage of the given width and
    height, exactly when there is color and depth. *)
Theorem create_fbo_buffers texture_type width height slot color depth gray t :
  color || depth = true →
  let calls :=
    drop (length t)
      (create_fbo generated status texture_type width height slot color depth
         gray t).2 in
  (glDrawBuffer GL_NONE ∈ calls ↔ color = false)
  ∧ (glReadBuffer GL_NONE ∈ calls ↔ color = false)
  ∧ (glGen glGenRenderbuffersEXT 1 ∈ calls ↔ color = true ∧ depth = true)
  ∧ (glRenderbufferStorageEXT GL_RENDERBUFFER_EXT GL_DEPTH_COMPONENT24
       width height ∈ calls ↔ color = true ∧ depth = true).
Proof.
  fbo_paths color depth; forget_driver; intros Hcd; try discriminate Hcd;
    cbv zeta; made_calls.
  all: repeat split; intros; try done; try tauto.
  all: try match goal with H : _ = _ ∧ _ = _ |- _ => destruct H; discriminate end.
  all: try (prove_member; fail).
  all: exfalso; match goal with H : _ ∈ _ |- _ => refute_member H end.
Qed.

(** X23: a [with render_to_fbo(window, fbo):] block.  Its body starts
    with the FBO bound and the viewport at the size of the FBO; the block
    ends as its body ends, returning or raising; and in both cases the
    block leaves framebuffer 0 bound and the viewport at the size of the
    window. *)
Theorem with_render_to_fbo_restores {A} (self : render_to_fbo) (body : io A) t :
  ∃ t0,
    bound_framebuffer t0 = id (fbo self)
    ∧ viewport t0 = Some (0, 0, (size (fbo self)).1, (size (fbo self)).2)
    ∧ (with_render_to_fbo self body t).1 = (body t0).1
    ∧ bound_framebuffer (with_render_to_fbo self body t).2 = 0
    ∧ viewport (with_render_to_fbo self body t).2 =
        Some (0, 0, (window_size self).1, (window_size self).2).
Proof.
  exists ((t ++ [glBindFramebufferEXT GL_FRAMEBUFFER_EXT (id (fbo self))])
          ++ [glViewport 0 0 (size (fbo self)).1 (size (fbo self)).2]).
  run_io. destruct (body _) as [r t1]. cbn [fst snd].
  rewrite !viewport_snoc, !bound_framebuffer_snoc. done.
Qed.

(** X24: the blocks do not nest.  After an inner
    [with render_to_fbo(...)] block, what is left of an outer one runs
    with framebuffer 0 bound, whatever FBO the outer block has bound. *)
Theorem render_to_fbo_does_not_nest {A} (outer inner : render_to_fbo)
    (body : io A) t bound :
  (with_render_to_fbo outer
     (with_render_to_fbo inner body ;; current_binding) t).1 = Returns bound →
  bound = 0.
Proof.
  run_io. destruct (body _) as [[a|e] t1]; cbn [fst snd]; [|discriminate].
  rewrite !bound_framebuffer_snoc. by intros [= <-].
Qed.
End gl.

Section win32.
Variables (PROCESS_ALL_ACCESS current : Z) (opened : Z → Z).

Lemma getitem_six {A} (a b c d e f : A) (i : Z) :
  getitem [a; b; c; d; e; f] i =
    if decide (-6 ≤ i < 6) then getitem [a; b; c; d; e; f] (i mod 6)
    else Raises IndexError.
Proof.
  unfold getitem. change (Z.of_nat (length [a; b; c; d; e; f])) with 6.
  destruct (decide (-6 ≤ i < 6)) as [Hi|Hi].
  - pose proof (Z.mod_pos_bound i 6 ltac:(lia)) as Hm.
    destruct (decide (i mod 6 < 0)); [lia|].
    destruct (decide (0 ≤ i mod 6 < 6)); [|lia].
    destruct (decide (i < 0)).
    + destruct (decide (0 ≤ i + 6 < 6)); [|lia].
      replace (i mod 6) with (i + 6); [done|].
      apply Z.mod_unique_pos with (-1); lia.
    + destruct (decide (0 ≤ i < 6)); [|lia].
      by rewrite Z.mod_small by lia.
  - destruct (decide (i < 0)).
    + destruct (decide (0 ≤ i + 6 < 6)); [lia|done].
    + destruct (decide (0 ≤ i < 6)); [lia|done].
Qed.

(** X25: [setpriority] sets a priority class exactly when
    -6 <= priority < 6.  It then does so on the handle opened for the
    process, as its last call.  For any other priority it raises
    [IndexError] after it has opened the process, and sets nothing. *)
Theorem setpriority_range (pid : option Z) (priority : Z) :
  let p := default current pid in
  let before :=
    (if pid is None then [GetCurrentProcessId] else [])
    ++ [OpenProcess PROCESS_ALL_ACCESS true p] in
  if decide (-6 ≤ priority < 6) then
    ∃ class,
      setpriority PROCESS_ALL_ACCESS current opened pid priority
        = (Returns (), before ++ [SetPriorityClass (opened p) class])
  else
    setpriority PROCESS_ALL_ACCESS current opened pid priority
      = (Raises IndexError, before).
Proof.
  unfold setpriority. rewrite getitem_six.
  destruct (decide (-6 ≤ priority < 6)) as [Hi|Hi].
  - assert (0 ≤ priority mod 6 < 6) as Hm by (apply Z.mod_pos_bound; lia).
    unfold getitem.
    match goal with
    | |- context [Z.of_nat (length ?l)] => change (Z.of_nat (length l)) with 6
    end.
    destruct (decide (priority mod 6 < 0)); [lia|].
    destruct (decide (0 ≤ priority mod 6 < 6)); [|lia].
    destruct (_ !! _) as [class|] eqn:Hl.
    + destruct pid; eauto.
    + apply lookup_ge_None in Hl. cbn in Hl. lia.
  - by destruct pid.
Qed.

(** X26: a negative priority counts from the highest class down: for
    -6 <= priority < 6, [setpriority] does exactly what it does for
    priority mod 6; in particular -1 selects the real-time class. *)
Theorem setpriority_wraps (pid : option Z) (priority : Z) :
  -6 ≤ priority < 6 →
  setpriority PROCESS_ALL_ACCESS current opened pid priority
    = setpriority PROCESS_ALL_ACCESS current opened pid (priority mod 6)
  ∧ setpriority PROCESS_ALL_ACCESS current opened pid (-1)
    = setpriority PROCESS_ALL_ACCESS current opened pid 5.
Proof.
  intros Hi. split; [|reflexivity]. unfold setpriority.
  rewrite (getitem_six _ _ _ _ _ _ priority),
    (getitem_six _ _ _ _ _ _ (priority mod 6)).
  rewrite Z.mod_mod by lia.
  assert (0 ≤ priority mod 6 < 6) as Hm by (apply Z.mod_pos_bound; lia).
  destruct (decide (-6 ≤ priority < 6)); [|lia].
  destruct (decide (-6 ≤ priority mod 6 < 6)); [|lia]. done.
Qed.
End win32.
End utilsFacts.

Module vectorsFacts.
Import Stdlib.Strings.String vectors.

Lemma prefix_append (s t : string) :
  prefix s t = true ↔ ∃ post, t = (s ++ post)%string.
Proof.
  revert t. induction s as [|a s IH]; intros t; cbn.
  - split; [intros _; exists t; reflexivity|by destruct t].
  - destruct t as [|b t]; [split; [done|by intros [? ?]]|]. cbn.
    destruct (Ascii.ascii_dec a b) as [Heq|Hne].
    + subst b. rewrite IH. split; intros [post H]; exists post.
      * by rewrite H.
      * by injection H.
    + split; [done|]. intros [post [= ? ?]]. done.
Qed.

Lemma occurs_unfold (s t : string) :
  occurs s t =
    if prefix s t then true
    else match t with
         | EmptyString => false
         | String _ rest => occurs s rest
         end.
Proof. by destruct t. Qed.

Lemma occurs_append (s t : string) :
  occurs s t = true ↔ ∃ pre post, t = (pre ++ s ++ post)%string.
Proof.
  induction t as [|b t IH]; rewrite occurs_unfold.
  - destruct (prefix s "") eqn:Hp.
    + apply prefix_append in Hp as [post Hpost]. split; [|reflexivity].
      intros _. exists ""%string, post. exact Hpost.
    + split; [discriminate|]. intros (pre & post & H).
      destruct pre; [|discriminate H]. cbn in H.
      assert (prefix s "" = true) as Hp'; [|congruence].
      apply prefix_append. eauto.
  - destruct (prefix s (String b t)) eqn:Hp.
    + apply prefix_append in Hp as [post Hpost]. split; [|reflexivity].
      intros _. exists ""%string, post. exact Hpost.
    + rewrite IH. split.
      * intros (pre & post & ->). exists (String b pre), post. reflexivity.
      * intros (pre & post & H). destruct pre as [|c pre].
        -- cbn in H. assert (prefix s (String b t) = true) as Hp'; [|congruence].
           apply prefix_append. eauto.
        -- injection H as _ ->. eauto.
Qed.

End vectorsFacts.

(** * The further theorems, applied *)

Module MoreWitnesses.
Import Physical PhysicalNode Rational RationalMore Scenes MoreScenes.
Import RationalFacts SceneFacts.
Local Open Scope Qc_scope.

Lemma update_model_normal_witness :
  model_matrix (Physical.update shifted).2 =
    np_dot (np_dot (Translation_to_matrix (pos (Physical.update shifted).2))
                   (Rotation_to_matrix (rot (Physical.update shifted).2)))
           (Scale_to_matrix (scale (Physical.update shifted).2))
  ∧ inverse_matrix (np_T (model_matrix (Physical.update shifted).2))
      = Some (normal_matrix (Physical.update shifted).2).
Proof.
  apply (PhysicalMore.update_model_normal shifted). vm_compute. reflexivity.
Defined.

Lemma update_forgets_matrices_witness :
  (Physical.update shifted).1 = (Physical.update (Physical.update shifted).2).1
  ∧ ((Physical.update shifted).1 = Ok () →
     (Physical.update shifted).2 = (Physical.update (Physical.update shifted).2).2).
Proof.
  apply (PhysicalMore.update_forgets_matrices shifted (Physical.update shifted).2);
    vm_compute; reflexivity.
Defined.

Lemma assign_all_then_update_witness :
  ∃ v n,
    inverse_matrix (np_dot (Translation_to_matrix (mkTranslation 1 0 0))
                           (Rotation_to_matrix half_turn)) = Some v
    ∧ inverse_matrix
        (np_T (np_dot (np_dot (Translation_to_matrix (mkTranslation 1 0 0))
                              (Rotation_to_matrix half_turn))
                      (Scale_to_matrix (ScaleXYZ 1 (1 + 1) 1)))) = Some n
    ∧ ((set_pos (Instance_of (mkTranslation 1 0 0)) ;;
        set_rot (Instance_of half_turn) ;;
        set_scale (Instance_of (ScaleXYZ 1 (1 + 1) 1)) ;;
        Physical.update) at_origin).2 =
        mkPhysical (mkTranslation 1 0 0) half_turn (ScaleXYZ 1 (1 + 1) 1)
          (np_dot (np_dot (Translation_to_matrix (mkTranslation 1 0 0))
                          (Rotation_to_matrix half_turn))
                  (Scale_to_matrix (ScaleXYZ 1 (1 + 1) 1))) n v.
Proof.
  apply (PhysicalMore.assign_all_then_update (mkTranslation 1 0 0) half_turn
           (ScaleXYZ 1 (1 + 1) 1) at_origin).
  vm_compute. reflexivity.
Defined.

Lemma init_consistent_witness :
  ∃ px py pz rx ry rz,
    [0; 0; 0] = [px; py; pz] ∧ [Q2Qc 90; 0; 0] = [rx; ry; rz] ∧
    pos quarter_turned = mkTranslation px py pz ∧
    rot quarter_turned = RotationEulerDegrees rx ry rz ∧
    scale quarter_turned = ScaleUniform 1 ∧
    Physical.update quarter_turned = (Ok (), quarter_turned).
Proof.
  apply (PhysicalMore.init_consistent [0; 0; 0] [Q2Qc 90; 0; 0] 1).
  vm_compute. closed_eq.
Defined.



Lemma init_scale_zero_witness :
  Physical.__init__ [1; 0; 0] [0; 0; 0] 0 = Raise LinAlgError.
Proof.
  apply (RationalMoreFacts.init_scale_zero cosd sind [1; 0; 0] [0; 0; 0]);
    reflexivity.
Defined.

Lemma update_touches_only_self_witness :
  (PhysicalNode.update 1 scene).2 !! 0%nat = scene !! 0%nat.
Proof. apply (PhysicalNodeMore.update_touches_only_self scene 1 0). lia. Defined.

Lemma update_raise_keeps_globals_witness :
  ∃ n', (PhysicalNode.update 1 flat_scene).2 !! 1%nat = Some n'
    ∧ parent n' = parent flat_child
    ∧ model_matrix_global n' = model_matrix_global flat_child
    ∧ normal_matrix_global n' = normal_matrix_global flat_child
    ∧ view_matrix_global n' = view_matrix_global flat_child.
Proof.
  apply (PhysicalNodeMore.update_raise_keeps_globals flat_scene 1 flat_child
           LinAlgError).
  - apply lookup_insert_eq.
  - vm_compute. reflexivity.
Defined.

Lemma update_parent_then_child_witness :
  ∃ nr' nc',
    ((PhysicalNode.update 0 ;; PhysicalNode.update 1) scene).2 !! 0%nat = Some nr'
    ∧ ((PhysicalNode.update 0 ;; PhysicalNode.update 1) scene).2 !! 1%nat = Some nc'
    ∧ model_matrix_global nc' =
        np_dot (model_matrix (physical nr')) (model_matrix (physical nc'))
    ∧ normal_matrix_global nc' =
        np_dot (normal_matrix (physical nr')) (normal_matrix (physical nc')).
Proof.
  apply (PhysicalNodeMore.update_parent_then_child scene 0 1 the_parent the_child).
  - vm_compute. closed_eq.
  - reflexivity.
  - vm_compute. closed_eq.
  - reflexivity.
  - vm_compute. reflexivity.
Defined.

Lemma update_child_then_parent_witness :
  ∃ nr' nc',
    ((PhysicalNode.update 1 ;; PhysicalNode.update 0) scene).2 !! 0%nat = Some nr'
    ∧ ((PhysicalNode.update 1 ;; PhysicalNode.update 0) scene).2 !! 1%nat = Some nc'
    ∧ model_matrix_global nc' =
        np_dot (model_matrix_global the_parent) (model_matrix (physical nc'))
    ∧ model_matrix_global nr' = model_matrix (physical nr').
Proof.
  apply (PhysicalNodeMore.update_child_then_parent scene 0 1 the_parent the_child).
  - vm_compute. closed_eq.
  - reflexivity.
  - vm_compute. closed_eq.
  - reflexivity.
  - vm_compute. reflexivity.
Defined.


Lemma position_global_root_witness :
  ∃ n', (PhysicalNode.update 0 scene).2 !! 0%nat = Some n'
    ∧ position_global n' =
        (x (pos (physical n')), y (pos (physical n')), z (pos (physical n'))).
Proof.
  apply (PositionFacts.position_global_root cosd sind scene 0 the_parent).
  - vm_compute. closed_eq.
  - reflexivity.
  - vm_compute. reflexivity.
Defined.

Lemma position_global_child_witness :
  ∃ n', (PhysicalNode.update 1 scene).2 !! 1%nat = Some n'
    ∧ position_global n' =
        moved (model_matrix_global the_parent) (pos (physical n')).
Proof.
  apply (PositionFacts.position_global_child cosd sind scene 1 the_child 0
           the_parent).
  - vm_compute. closed_eq.
  - reflexivity.
  - vm_compute. closed_eq.
  - vm_compute. reflexivity.
Defined.

Lemma position_global_adds_witness :
  ∃ nc',
    ((PhysicalNode.update 0 ;; PhysicalNode.update 1) far_scene).2 !! 1%nat
      = Some nc'
    ∧ position_global nc' =
        (x (pos (physical the_parent)) + x (pos (physical far_child)),
         y (pos (physical the_parent)) + y (pos (physical far_child)),
         z (pos (physical the_parent)) + z (pos (physical far_child))).
Proof.
  apply (PositionFacts.position_global_adds cosd sind far_scene 0 1
           the_parent far_child).
  - vm_compute. closed_eq.
  - reflexivity.
  - apply lookup_insert_eq.
  - reflexivity.
  - apply mat4_eqb_true. vm_compute. reflexivity.
  - vm_compute. closed_eq.
  - vm_compute. reflexivity.
Defined.
End MoreWitnesses.

Module utilsWitnesses.
Import utils vectors MoreScenes.
Local Open Scope Z_scope.

Lemma create_opengl_object_handles_witness :
  create_opengl_object (gl_gen counting glGenTextures) 1 []
    = (Returns (Handle 0), [glGen glGenTextures 1])
  ∧ ∃ l, create_opengl_object (gl_gen counting glGenBuffers) 3 []
           = (Returns (Handles l), [glGen glGenBuffers 3])
      ∧ length l = 3%nat ∧ NoDup l.
Proof.
  split.
  - apply (utilsFacts.create_opengl_object_handles
             (gl_gen counting glGenTextures) 1 [] 0 [glGen glGenTextures 1]);
      [reflexivity|lia].
  - destruct (proj2 (utilsFacts.create_opengl_object_handles
             (gl_gen counting glGenBuffers) 3 [] 0 [glGen glGenBuffers 3]
             eq_refl)) as (l & Hl & Hn & _ & Hd); [lia|].
    exists l. split; [exact Hl|]. split; [exact Hn|exact Hd].
Defined.

Lemma create_fbo_assertion_witness :
  create_fbo (GL := opengl) counting complete 0x0DE1 640 480 0 false false
    false [] = (Raises AssertionError, [])
  ∧ screen_fbo [] ≠ (Raises AssertionError, []).
Proof.
  split.
  - apply (utilsFacts.create_fbo_assertion (GL := opengl) counting complete);
      reflexivity.
  - intros H.
    apply (proj2 (utilsFacts.create_fbo_assertion (GL := opengl) counting
                    complete 0x0DE1 640 480 2 true true false []) eq_refl).
    unfold screen_fbo in H. by rewrite H.
Defined.

Lemma create_fbo_returns_witness :
  size (mkFBO 8 1 2 (640, 480)) = (640, 480)
  ∧ texture_slot (mkFBO 8 1 2 (640, 480)) = 2
  ∧ glBindTexture 0x0DE1 1 ∈ drop 0 (screen_fbo []).2
  ∧ filter binds_framebuffer (drop 0 (screen_fbo []).2) =
      [glBindFramebufferEXT 0x8D40 8; glBindFramebufferEXT 0x8D40 0]
  ∧ bound_framebuffer (screen_fbo []).2 = 0.
Proof.
  apply (utilsFacts.create_fbo_returns (GL := opengl) counting complete
           0x0DE1 640 480 2 true true false [] (mkFBO 8 1 2 (640, 480))).
  vm_compute. reflexivity.
Defined.

Lemma create_fbo_raises_witness :
  ∃ st f, BufferError 0x8CD6 = BufferError st
    ∧ st ≠ 0x8CD5
    ∧ last (shadow_fbo []).2 = Some (glCheckFramebufferStatusEXT 0x8D40)
    ∧ filter binds_framebuffer (drop 0 (shadow_fbo []).2) =
        [glBindFramebufferEXT 0x8D40 f]
    ∧ bound_framebuffer (shadow_fbo []).2 = f.
Proof.
  apply (utilsFacts.create_fbo_raises (GL := opengl) counting incomplete
           0x8513 64 64 0 false true false []).
  - reflexivity.
  - vm_compute. reflexivity.
Defined.


Lemma create_fbo_buffers_witness :
  glDrawBuffer 0 ∈ drop 0 (shadow_fbo []).2
  ∧ glGen glGenRenderbuffersEXT 1 ∈ drop 0 (screen_fbo []).2.
Proof.
  split.
  - apply (utilsFacts.create_fbo_buffers (GL := opengl) counting incomplete
             0x8513 64 64 0 false true false [] eq_refl). reflexivity.
  - apply (utilsFacts.create_fbo_buffers (GL := opengl) counting complete
             0x0DE1 640 480 2 true true false [] eq_refl). split; reflexivity.
Defined.

Lemma render_to_fbo_does_not_nest_witness :
  (with_render_to_fbo (GL := opengl) outer_block
     (with_render_to_fbo (GL := opengl) inner_block (mret ()) ;;
      current_binding) []).1 = Returns 0.
Proof.
  assert (∃ b, (with_render_to_fbo (GL := opengl) outer_block
     (with_render_to_fbo (GL := opengl) inner_block (mret ()) ;;
      current_binding) []).1 = Returns b) as [b Hb].
  { eexists. vm_compute. reflexivity. }
  rewrite Hb. f_equal.
  exact (utilsFacts.render_to_fbo_does_not_nest (GL := opengl) outer_block
           inner_block (mret ()) [] b Hb).
Defined.

Lemma setpriority_wraps_witness :
  setpriority 0x1F0FFF 4242 (λ pid, pid + 1) None (-2)
    = setpriority 0x1F0FFF 4242 (λ pid, pid + 1) None 4.
Proof.
  apply (utilsFacts.setpriority_wraps 0x1F0FFF 4242 (λ pid, pid + 1) None (-2)).
  lia.
Defined.

End utilsWitnesses.

Module vectorsWitnesses.
Import Stdlib.Strings.String vectors.
Local Open Scope Z_scope.

End vectorsWitnesses.
